(** * CwaWeather-backend: the forecast handler of [server.js]

    A shallow embedding of [getWeather] (server.js, lines 80-240) and of the
    tables it reads (lines 19-72), followed by the properties the
    specification states about them.

    - The handler receives whatever JSON document the upstream service
      sends, so the embedding works on untyped JavaScript values and gives
      every operator the handler uses (property reads, optional chaining,
      [||], truthiness, string concatenation, property-key coercion) its
      ECMAScript meaning on all of them.
    - An expression evaluates to a [result]: a value, or an exception thrown
      to the [catch] block.
    - The element table of line 133 is an object literal: it has a
      prototype, which an element named [__proto__] replaces, and the loop
      of line 141 compares its counter with whatever [length] the master
      series has.  Both are followed as the language defines them.
    - The upstream is a function from the request [axios.get] is given to
      the way its promise settles; the handler threads the list of requests
      issued so far. *)

From Stdlib Require Import String Ascii.
From Stdlib Require Import List NArith ZArith Bool Arith Lia.
From Stdlib Require Import DecimalNat.
Import ListNotations.

(* ================================================================== *)
(** * JavaScript strings *)
(* ================================================================== *)

(** A JavaScript string is a sequence of UTF-16 code units; [length] and
    indexing count code units. *)
Definition jstring := list N.

Definition jstring_eqb (a b : jstring) : bool :=
  if list_eq_dec N.eq_dec a b then true else false.

(** The source file is UTF-8; [decode] turns the bytes of a literal into the
    code units the engine holds. *)
Definition cont (b : N) : N := N.land b 63.

Fixpoint decode (bs : list N) : jstring :=
  match bs with
  | [] => []
  | b :: r =>
      if (b <? 128)%N then b :: decode r
      else if (b <? 224)%N then
        match r with
        | b1 :: r1 => (N.shiftl (N.land b 31) 6 + cont b1)%N :: decode r1
        | _ => []
        end
      else if (b <? 240)%N then
        match r with
        | b1 :: b2 :: r2 =>
            (N.shiftl (N.land b 15) 12 + N.shiftl (cont b1) 6 + cont b2)%N
              :: decode r2
        | _ => []
        end
      else
        match r with
        | b1 :: b2 :: b3 :: r3 =>
            let cp := (N.shiftl (N.land b 7) 18 + N.shiftl (cont b1) 12
                       + N.shiftl (cont b2) 6 + cont b3)%N in
            let v := (cp - 65536)%N in
            (55296 + N.shiftr v 10)%N :: (56320 + N.land v 1023)%N :: decode r3
        | _ => []
        end
  end.

Definition utf16 (s : string) : jstring :=
  decode (map N_of_ascii (list_ascii_of_string s)).
Arguments utf16 s%_string.

(** [js "..."] is the JavaScript string a literal of the source denotes,
    decoded once, where it is written. *)
Abbreviation js s :=
  (ltac:(let units := eval vm_compute in (utf16 s) in exact units))
  (only parsing).

Definition digit_unit (d : nat) : N := (48 + N.of_nat d)%N.

Fixpoint digits (d : Decimal.uint) : jstring :=
  match d with
  | Decimal.Nil => []
  | Decimal.D0 r => digit_unit 0 :: digits r
  | Decimal.D1 r => digit_unit 1 :: digits r
  | Decimal.D2 r => digit_unit 2 :: digits r
  | Decimal.D3 r => digit_unit 3 :: digits r
  | Decimal.D4 r => digit_unit 4 :: digits r
  | Decimal.D5 r => digit_unit 5 :: digits r
  | Decimal.D6 r => digit_unit 6 :: digits r
  | Decimal.D7 r => digit_unit 7 :: digits r
  | Decimal.D8 r => digit_unit 8 :: digits r
  | Decimal.D9 r => digit_unit 9 :: digits r
  end.

(** [String(i)] for an array index [i]. *)
Definition show_nat (i : nat) : jstring := digits (Nat.to_uint i).

(* ================================================================== *)
(** * JavaScript values *)
(* ================================================================== *)

(** The values a parsed JSON document is made of, and [undefined].

    - A Number is identified by its [ToString] rendering (["25"], ["0.5"],
      ["1e+21"]); the handler only tests numbers for truthiness, copies them
      and concatenates them to strings.
    - An object is the list of its own properties; a read takes the first
      binding of a key. *)
#[warnings="-register-all"]
Inductive value : Type :=
| VUndef
| VNull
| VBool (b : bool)
| VNum (rendering : jstring)
| VStr (s : jstring)
| VArr (items : list value)
| VObj (props : list (jstring * value)).

Definition nullish (v : value) : bool :=
  match v with VUndef | VNull => true | _ => false end.

(** [ToBoolean]. The only falsy numbers are [0], [-0] (both rendered ["0"])
    and [NaN]. *)
Definition truthy (v : value) : bool :=
  match v with
  | VUndef | VNull => false
  | VBool b => b
  | VNum r => negb (jstring_eqb r (js "0") || jstring_eqb r (js "NaN"))
  | VStr s => match s with [] => false | _ => true end
  | VArr _ | VObj _ => true
  end.

(** [a || b] *)
Definition or_else (a b : value) : value := if truthy a then a else b.

Fixpoint lookup (k : jstring) (props : list (jstring * value)) : option value :=
  match props with
  | [] => None
  | (k', v) :: rest => if jstring_eqb k k' then Some v else lookup k rest
  end.

(** The index [i < n] whose canonical rendering is the key [k], if any. *)
Definition key_index (k : jstring) (n : nat) : option nat :=
  find (fun i => jstring_eqb (show_nat i) k) (seq 0 n).

(** [v[k]] for a base [v] that is neither [undefined] nor [null]: an own
    property, an element of an array, a code unit of a string, or [length].
    The only inherited member the handler ever asks a value for is
    [forEach], which [weatherElementsOf] treats; the other keys it reads are
    not names of members of the built-in prototypes. *)
Definition prop (v : value) (k : jstring) : value :=
  match v with
  | VArr items =>
      if jstring_eqb k (js "length") then VNum (show_nat (length items))
      else match key_index k (length items) with
           | Some i => nth i items VUndef
           | None => VUndef
           end
  | VStr s =>
      if jstring_eqb k (js "length") then VNum (show_nat (length s))
      else match key_index k (length s) with
           | Some i => match nth_error s i with
                       | Some c => VStr [c]
                       | None => VUndef
                       end
           | None => VUndef
           end
  | VObj props =>
      match lookup k props with Some x => x | None => VUndef end
  | _ => VUndef
  end.

(* ------------------------------------------------------------------ *)
(** ** Exceptions *)

(** The [TypeError]s the handler can meet: reading a property of
    [undefined] or [null], calling what is not a function, and [ToPrimitive]
    finding no callable [toString] or [valueOf]. *)
Inductive type_error : Type :=
| CannotRead (base : value) (key : jstring)
| NotAFunction (callee : jstring)
| CannotConvert.

(** What [axios.get] rejects with: [error.message], and [error.response]
    (status and parsed body) when the upstream answered at all. *)
Inductive js_error : Type :=
| TypeError (why : type_error)
| AxiosError (message : jstring) (response : option (Z * value)).

(** The outcome of evaluating an expression. *)
Inductive result (A : Type) : Type :=
| Ok (a : A)
| Throw (e : js_error).
Arguments Ok {A} a.
Arguments Throw {A} e.

Definition bind {A B} (r : result A) (k : A -> result B) : result B :=
  match r with
  | Ok a => k a
  | Throw e => Throw e
  end.

Declare Scope js_scope.
Delimit Scope js_scope with js.
Notation "x <- c ;; k" := (bind c (fun x => k))
  (at level 100, c at next level, right associativity) : js_scope.
Notation "' p <- c ;; k" := (bind c (fun p => k))
  (at level 100, p pattern, c at next level, right associativity) : js_scope.
Open Scope js_scope.

(** [v.k] and [v[k]] *)
Definition get (v : value) (k : jstring) : result value :=
  if nullish v then Throw (TypeError (CannotRead v k)) else Ok (prop v k).

(** [v?.k] and [v?.[k]] *)
Definition opt_get (v : value) (k : jstring) : value :=
  if nullish v then VUndef else prop v k.

(** [v[i]] and [v?.[i]] for a number [i] that is an array index *)
Definition idx (v : value) (i : nat) : result value := get v (show_nat i).
Definition opt_idx (v : value) (i : nat) : value := opt_get v (show_nat i).

Fixpoint intercalate (sep : jstring) (parts : list jstring) : jstring :=
  match parts with
  | [] => []
  | [p] => p
  | p :: rest => p ++ sep ++ intercalate sep rest
  end.

Fixpoint sequence {A} (rs : list (result A)) : result (list A) :=
  match rs with
  | [] => Ok []
  | r :: rest => a <- r ;; l <- sequence rest ;; Ok (a :: l)
  end.

Definition has_key (k : jstring) (props : list (jstring * value)) : bool :=
  match lookup k props with Some _ => true | None => false end.

(** [ToString], as string concatenation, template literals and property-key
    coercion apply it.  An array joins its elements with a comma, writing
    nothing for [undefined] and [null].  A parsed object inherits
    [Object.prototype.toString] unless it has an own property of that name;
    such a property holds data, is not callable, and the conversion throws. *)
Fixpoint to_string (v : value) : result jstring :=
  match v with
  | VUndef => Ok (js "undefined")
  | VNull => Ok (js "null")
  | VBool true => Ok (js "true")
  | VBool false => Ok (js "false")
  | VNum r => Ok r
  | VStr s => Ok s
  | VArr items =>
      parts <- sequence
        (map (fun x => if nullish x then Ok [] else to_string x) items) ;;
      Ok (intercalate (js ",") parts)
  | VObj props =>
      if has_key (js "toString") props then Throw (TypeError CannotConvert)
      else Ok (js "[object Object]")
  end.

(* ------------------------------------------------------------------ *)
(** ** Comparing the loop counter with a value *)

(** The code points [ToNumber] strips from both ends of a string:
    [WhiteSpace] and [LineTerminator]. *)
Definition whiteSpace (c : N) : bool :=
  existsb (N.eqb c)
    [9; 10; 11; 12; 13; 32; 160; 5760; 8232; 8233; 8239; 8287; 12288; 65279]%N
  || ((8192 <=? c) && (c <=? 8202))%N.

Fixpoint dropSpace (s : jstring) : jstring :=
  match s with
  | c :: rest => if whiteSpace c then dropSpace rest else s
  | [] => []
  end.

Definition trim (s : jstring) : jstring :=
  rev (dropSpace (rev (dropSpace s))).

(** What a string denotes as a number, before rounding to a double:
    [mantissa * 10 ^ exponent], with its sign. *)
Inductive numeral : Type :=
| NotANumber
| Infinite (negative : bool)
| Exact (negative : bool) (mantissa : N) (exponent : Z).

Definition digitValue (radix c : N) : option N :=
  let d := (if (48 <=? c) && (c <=? 57) then Some (c - 48)
            else if (97 <=? c) && (c <=? 102) then Some (c - 87)
            else if (65 <=? c) && (c <=? 70) then Some (c - 55)
            else None)%N in
  match d with
  | Some v => if (v <? radix)%N then Some v else None
  | None => None
  end.

(** The longest run of digits at the head of [s]: the number it denotes
    after [value], how many digits were read, and what follows them. *)
Fixpoint readDigits (radix : N) (s : jstring) (value : N) (count : nat)
  : N * nat * jstring :=
  match s with
  | c :: rest =>
      match digitValue radix c with
      | Some d => readDigits radix rest (value * radix + d)%N (S count)
      | None => (value, count, s)
      end
  | [] => (value, count, [])
  end.

(** [0x], [0o] and [0b] literals; they take no sign. *)
Definition radixLiteral (s : jstring) : option numeral :=
  match s with
  | 48%N :: x :: rest =>
      let radix := (if (x =? 120) || (x =? 88) then Some 16
                    else if (x =? 111) || (x =? 79) then Some 8
                    else if (x =? 98) || (x =? 66) then Some 2
                    else None)%N in
      match radix with
      | Some r =>
          Some (match readDigits r rest 0 0 with
                | (v, S _, []) => Exact false v 0
                | _ => NotANumber
                end)
      | None => None
      end
  | _ => None
  end.

(** What may follow the digits of a decimal literal: nothing, or [e] or
    [E] and a signed integer. *)
Definition exponentPart (s : jstring) : option Z :=
  match s with
  | [] => Some 0%Z
  | c :: rest =>
      if ((c =? 101) || (c =? 69))%N then
        let '(negative, ds) :=
          match rest with
          | 43%N :: ds => (false, ds)
          | 45%N :: ds => (true, ds)
          | _ => (false, rest)
          end in
        match readDigits 10 ds 0 0 with
        | (v, S _, []) => Some (if negative then - Z.of_N v else Z.of_N v)%Z
        | _ => None
        end
      else None
  end.

(** [Infinity], or digits with an optional fraction and exponent; one digit
    at least before or after the point. *)
Definition unsignedDecimal (negative : bool) (s : jstring) : numeral :=
  if jstring_eqb s (js "Infinity") then Infinite negative
  else
    let '(whole, nw, r) := readDigits 10 s 0 0 in
    let '(m, nf, r') :=
      match r with
      | 46%N :: fraction => readDigits 10 fraction whole 0
      | _ => (whole, 0, r)
      end in
    match nw + nf, exponentPart r' with
    | S _, Some e => Exact negative m (e - Z.of_nat nf)
    | _, _ => NotANumber
    end.

(** [StringToNumber]: the empty string is [0], anything that is not a
    numeric literal is [NaN]. *)
Definition stringToNumber (s : jstring) : numeral :=
  match trim s with
  | [] => Exact false 0 0
  | t =>
      match radixLiteral t with
      | Some n => n
      | None =>
          match t with
          | 43%N :: r => unsignedDecimal false r
          | 45%N :: r => unsignedDecimal true r
          | _ => unsignedDecimal false t
          end
      end
  end.

(** [i < x] for a counter [i] and the double nearest to [x]: the double is
    above [i] when [x] is above the middle between [i] and the next double
    (or on it, when the tie goes to the next one).  The doubles from [2^k]
    to [2^(k+1)] are [2^(k-52)] apart, and the first one above [0] is
    [2^(-1074)]. *)
Definition roundsAbove (i : nat) (mantissa : N) (exponent : Z) : bool :=
  let n := Z.of_nat i in
  let h := if (n =? 0)%Z then (-1075)%Z else (Z.log2 n - 53)%Z in
  let x := (Z.of_N mantissa * 10 ^ Z.max exponent 0 * 2 ^ Z.max (- h) 0)%Z in
  let middle :=
    ((n * 2 ^ Z.max (- h) 0 + 2 ^ Z.max h 0) * 10 ^ Z.max (- exponent) 0)%Z in
  let tieUp := ((-1 <=? h) && Z.odd (Z.shiftr n (h + 1)))%Z in
  (middle <? x)%Z || ((middle =? x)%Z && tieUp).

Definition below (i : nat) (x : numeral) : bool :=
  match x with
  | NotANumber => false
  | Infinite negative => negb negative
  | Exact true _ _ => false
  | Exact false mantissa exponent => roundsAbove i mantissa exponent
  end.

(** [i < v], the test of line 141.  [v] is turned into a primitive, which
    for an array or an object is its string, and then into a number:
    [undefined] is [NaN], [null] is [0], [true] is [1]; a Number is read
    back from its rendering. *)
Definition lessThan (i : nat) (v : value) : result bool :=
  match v with
  | VUndef | VNull => Ok false
  | VBool b => Ok (b && (i =? 0))
  | VNum r => Ok (below i (stringToNumber r))
  | VStr s => Ok (below i (stringToNumber s))
  | VArr _ | VObj _ => s <- to_string v ;; Ok (below i (stringToNumber s))
  end.

(** [error.message]; a [TypeError] is worded as V8, the engine of Node.js,
    words it. *)
Definition error_message (e : js_error) : jstring :=
  match e with
  | TypeError (CannotRead base key) =>
      js "Cannot read properties of "
        ++ (match base with VNull => js "null" | _ => js "undefined" end)
        ++ js " (reading '" ++ key ++ js "')"
  | TypeError (NotAFunction callee) => callee ++ js " is not a function"
  | TypeError CannotConvert => js "Cannot convert object to primitive value"
  | AxiosError message _ => message
  end.

(** [JSON.stringify], which [res.json] applies to the body: a property whose
    value is [undefined] is left out, an [undefined] array element and a
    non-finite number are written [null]. *)
Definition finite (r : jstring) : bool :=
  negb (jstring_eqb r (js "NaN") || jstring_eqb r (js "Infinity")
        || jstring_eqb r (js "-Infinity")).

Fixpoint serialized (v : value) : value :=
  match v with
  | VNum r => if finite r then VNum r else VNull
  | VArr items =>
      VArr (map (fun x => match x with VUndef => VNull | _ => serialized x end)
                items)
  | VObj props =>
      VObj ((fix own (ps : list (jstring * value)) :=
               match ps with
               | [] => []
               | (k, VUndef) :: rest => own rest
               | (k, x) :: rest => (k, serialized x) :: own rest
               end) props)
  | _ => v
  end.

(* ================================================================== *)
(** * server.js: tables (lines 9-72) *)
(* ================================================================== *)

Definition CWA_API_BASE_URL : jstring := js "https://opendata.cwa.gov.tw/api".

Definition VALID_LOCATIONS : list jstring :=
  [ js "宜蘭縣"; js "花蓮縣"; js "臺東縣"; js "澎湖縣"; js "金門縣";
    js "連江縣"; js "臺北市"; js "新北市"; js "桃園市"; js "臺中市";
    js "臺南市"; js "高雄市"; js "基隆市"; js "新竹縣"; js "新竹市";
    js "苗栗縣"; js "彰化縣"; js "南投縣"; js "雲林縣"; js "嘉義縣";
    js "嘉義市"; js "屏東縣" ].

Definition DEFAULT_LOCATION : jstring := js "臺中市".

Definition LOCATION_API_MAP : value :=
  VObj
    [ (js "宜蘭縣", VStr (js "F-D0047-003"));
      (js "桃園市", VStr (js "F-D0047-007"));
      (js "新竹縣", VStr (js "F-D0047-011"));
      (js "苗栗縣", VStr (js "F-D0047-015"));
      (js "彰化縣", VStr (js "F-D0047-019"));
      (js "南投縣", VStr (js "F-D0047-023"));
      (js "雲林縣", VStr (js "F-D0047-027"));
      (js "嘉義縣", VStr (js "F-D0047-031"));
      (js "屏東縣", VStr (js "F-D0047-035"));
      (js "臺東縣", VStr (js "F-D0047-039"));
      (js "花蓮縣", VStr (js "F-D0047-043"));
      (js "澎湖縣", VStr (js "F-D0047-047"));
      (js "基隆市", VStr (js "F-D0047-051"));
      (js "新竹市", VStr (js "F-D0047-055"));
      (js "嘉義市", VStr (js "F-D0047-059"));
      (js "臺北市", VStr (js "F-D0047-063"));
      (js "高雄市", VStr (js "F-D0047-067"));
      (js "新北市", VStr (js "F-D0047-071"));
      (js "臺中市", VStr (js "F-D0047-075"));
      (js "臺南市", VStr (js "F-D0047-079"));
      (js "連江縣", VStr (js "F-D0047-083"));
      (js "金門縣", VStr (js "F-D0047-087")) ].

(* ================================================================== *)
(** * server.js: getWeather (lines 80-240) *)
(* ================================================================== *)

(** What the handler reads of the Express request: [req.query.locationName]
    and [req.params.locationName], [undefined] when not supplied. *)
Record request : Type := {
  query_locationName : value;
  params_locationName : value
}.

(** What [res.status(..).json(..)] sends; [res.json] alone sends 200. *)
Record reply : Type := { status : Z; body : value }.

Record axios_request : Type := { url : jstring; Authorization : value }.

Inductive settled : Type :=
| Fulfilled (data : value)          (* a 2xx answer: [response.data] *)
| RejectedWith (error : js_error).

(** [VALID_LOCATIONS.includes(v)]: SameValueZero against strings. *)
Definition includes (xs : list jstring) (v : value) : bool :=
  match v with
  | VStr s => existsb (jstring_eqb s) xs
  | _ => false
  end.

(** Lines 91-96. *)
Definition resolveLocation (req : request) : value :=
  let locationName :=
    or_else (query_locationName req) (params_locationName req) in
  if negb (truthy locationName)
     || negb (includes VALID_LOCATIONS locationName)
  then VStr DEFAULT_LOCATION
  else locationName.

(** Lines 99-104: the dataset id of a location and the URL requested. *)
Definition datasetId (locationName : value) : result value :=
  key <- to_string locationName ;;
  get LOCATION_API_MAP key.

Definition requestUrl (locationName : value) : result jstring :=
  id <- datasetId locationName ;;
  id <- to_string id ;;
  Ok (CWA_API_BASE_URL ++ js "/v1/rest/datastore/" ++ id).

Record forecast : Type := {
  startTime : value;
  endTime : value;
  weather : value;
  weatherCode : value;
  rain : value;
  temperature : value;
  apparentTemp : value;
  comfort : value;
  windDirection : value;
  windSpeed : value;
  humidity : value;
  description : value
}.

Record weatherData : Type := {
  city : value;
  district : value;
  updateTime : value;
  forecasts : list forecast
}.

Definition forecast_object (f : forecast) : value :=
  VObj [ (js "startTime", startTime f); (js "endTime", endTime f);
         (js "weather", weather f); (js "weatherCode", weatherCode f);
         (js "rain", rain f); (js "temperature", temperature f);
         (js "apparentTemp", apparentTemp f); (js "comfort", comfort f);
         (js "windDirection", windDirection f);
         (js "windSpeed", windSpeed f); (js "humidity", humidity f);
         (js "description", description f) ].

Definition weatherData_object (w : weatherData) : value :=
  VObj [ (js "city", city w); (js "district", district w);
         (js "updateTime", updateTime w);
         (js "forecasts", VArr (map forecast_object (forecasts w))) ].

(** Lines 114-115: [response.data.records.Locations?.[0]] and
    [locationsData?.Location?.[0]]. *)
Definition locate (data : value) : result (value * value) :=
  records <- get data (js "records") ;;
  locations <- get records (js "Locations") ;;
  let locationsData := opt_idx locations 0 in
  let locationData := opt_idx (opt_get locationsData (js "Location")) 0 in
  Ok (locationsData, locationData).

(** Line 133: [weatherElements] is made by the literal [{}].  Such an object
    has its own properties and a prototype: [Object.prototype] at first, and
    later whatever an assignment to [__proto__] puts there -- an object or
    an array of the document, or [null]. *)
Inductive prototype : Type :=
| ObjectPrototype
| Inherits (from : value)
| NoPrototype.

Record jsobject : Type := {
  own : list (jstring * value);
  proto : prototype
}.

Definition emptyObject : jsobject := {| own := []; proto := ObjectPrototype |}.

(** An assignment to a key the object does not own walks up the prototypes.
    The only member it can meet there that is not plain data is the
    accessor [__proto__] of [Object.prototype]; a parsed object that has a
    [__proto__] member of its own hides it, and below [null] there is
    nothing. *)
Definition reachesSetter (p : prototype) : bool :=
  match p with
  | ObjectPrototype => true
  | Inherits (VObj props) => negb (has_key (js "__proto__") props)
  | Inherits _ => true
  | NoPrototype => false
  end.

(** The setter of [__proto__]: an object or [null] becomes the prototype,
    any other value is ignored. *)
Definition setPrototype (o : jsobject) (v : value) : jsobject :=
  match v with
  | VArr _ | VObj _ => {| own := own o; proto := Inherits v |}
  | VNull => {| own := own o; proto := NoPrototype |}
  | _ => o
  end.

(** [o[key] = v].  The new binding goes in front, where reads find it
    first. *)
Definition assign (o : jsobject) (key : jstring) (v : value) : jsobject :=
  if jstring_eqb key (js "__proto__")
     && negb (has_key key (own o)) && reachesSetter (proto o)
  then setPrototype o v
  else {| own := (key, v) :: own o; proto := proto o |}.

(** Lines 134-136. *)
Fixpoint collect (elements : list value) (weatherElements : jsobject)
  : result jsobject :=
  match elements with
  | [] => Ok weatherElements
  | element :: rest =>
      name <- get element (js "ElementName") ;;
      time <- get element (js "Time") ;;
      key <- to_string name ;;
      collect rest (assign weatherElements key time)
  end.

Definition weatherElementsOf (locationData : value) : result jsobject :=
  list <- get locationData (js "WeatherElement") ;;
  match list with
  | VArr elements => collect elements emptyObject
  | VUndef | VNull => Throw (TypeError (CannotRead list (js "forEach")))
  | _ => Throw (TypeError
                  (NotAFunction (js "locationData.WeatherElement.forEach")))
  end.

(** [weatherElements[name]]: the object's own property, or else what its
    prototype has under that name. *)
Definition element (weatherElements : jsobject) (name : jstring) : value :=
  match lookup name (own weatherElements) with
  | Some v => v
  | None =>
      match proto weatherElements with
      | Inherits from => prop from name
      | _ => VUndef
      end
  end.

(** [series[i].ElementValue?.[0]?.Field] *)
Definition firstValue (series : value) (i : nat) (field : jstring)
  : result value :=
  entry <- idx series i ;;
  values <- get entry (js "ElementValue") ;;
  Ok (opt_get (opt_idx values 0) field).

(** [x ? x + suffix : ""] *)
Definition withUnit (suffix : jstring) (x : value) : result value :=
  if truthy x then (s <- to_string x ;; Ok (VStr (s ++ suffix)))
  else Ok (VStr []).

(** [x || ""] *)
Definition orEmpty (x : value) : result value := Ok (or_else x (VStr [])).

(** One of the eight blocks of lines 165-209:
    [if (weatherElements[name]?.[i]) { forecast.attr = format(...) }],
    the attribute keeping the [""] of the literal otherwise. *)
Definition attribute (weatherElements : jsobject) (name : jstring) (i : nat) (field : jstring)
    (format : value -> result value) : result value :=
  let series := element weatherElements name in
  if truthy (opt_idx series i) then
    raw <- firstValue series i field ;;
    format raw
  else Ok (VStr []).

(** The body of the loop, lines 142-211. *)
Definition period (weatherElements : jsobject) (wxTimes : value) (i : nat)
  : result forecast :=
  timeData <- idx wxTimes i ;;
  start <- get timeData (js "StartTime") ;;
  stop <- get timeData (js "EndTime") ;;
  values <- get timeData (js "ElementValue") ;;
  let wxValue := opt_idx values 0 in
  let wx := if truthy wxValue
            then or_else (prop wxValue (js "Weather")) (VStr [])
            else VStr [] in
  let code := if truthy wxValue
              then or_else (prop wxValue (js "WeatherCode")) (VStr [])
              else VStr [] in
  temp <- attribute weatherElements (js "溫度") i
            (js "Temperature") (withUnit (js "°C")) ;;
  at_ <- attribute weatherElements (js "體感溫度") i
            (js "ApparentTemperature") (withUnit (js "°C")) ;;
  ci <- attribute weatherElements (js "舒適度指數") i
            (js "ComfortIndex") orEmpty ;;
  pop <- attribute weatherElements (js "3小時降雨機率") i
            (js "ProbabilityOfPrecipitation") (withUnit (js "%")) ;;
  wd <- attribute weatherElements (js "風向") i
            (js "WindDirection") orEmpty ;;
  ws <- attribute weatherElements (js "風速") i
            (js "WindSpeed") (withUnit (js " m/s")) ;;
  rh <- attribute weatherElements (js "相對濕度") i
            (js "RelativeHumidity") (withUnit (js "%")) ;;
  desc <- attribute weatherElements (js "天氣預報綜合描述") i
            (js "WeatherDescription") orEmpty ;;
  Ok {| startTime := start; endTime := stop;
        weather := wx; weatherCode := code;
        rain := pop; temperature := temp; apparentTemp := at_;
        comfort := ci; windDirection := wd; windSpeed := ws;
        humidity := rh; description := desc |}.

(** The number of indexes, counted from [i] and no more than [most], that
    the test [i < len] lets through. *)
Fixpoint indexesBelow (len : value) (i most : nat) : result nat :=
  match most with
  | O => Ok 0
  | S most' =>
      more <- lessThan i len ;;
      if more then (n <- indexesBelow len (S i) most' ;; Ok (S n)) else Ok 0
  end.

(** The number of times the test [i < wxTimes.length] of line 141 lets the
    body run.  The [length] of an array or of a string is the number of
    its entries.  A number or a boolean has none, and [i < undefined] is
    false.  An object has the [length] the document gave it, if any, which
    the test turns into a number; having a [length], it has fewer entries
    than members, so that the body has thrown on a missing entry (line 144)
    before the counter reaches the number of its members, and no index
    needs testing from there on ([series_has_gap], [loopBound_exact]). *)
Definition loopBound (wxTimes : value) : result nat :=
  match wxTimes with
  | VArr items => Ok (length items)
  | VStr s => Ok (length s)
  | VObj props => indexesBelow (prop wxTimes (js "length")) 0 (length props)
  | VUndef | VNull => Throw (TypeError (CannotRead wxTimes (js "length")))
  | _ => Ok 0
  end.

(** [for (let i = ..; i < wxTimes.length; i++) { ..; forecasts.push(f) }],
    with [remaining] the number of indices still below the bound. *)
Fixpoint forLoop (weatherElements : jsobject) (wxTimes : value)
    (remaining i : nat) (forecasts : list forecast) : result (list forecast) :=
  match remaining with
  | O => Ok forecasts
  | S remaining' =>
      f <- period weatherElements wxTimes i ;;
      forLoop weatherElements wxTimes remaining' (S i) (forecasts ++ [f])
  end.

(** Lines 112-212: the upstream document becomes a [weatherData], or [None]
    when line 117 finds no sub-location. *)
Definition transform (locationName : value) (data : value)
  : result (option weatherData) :=
  ' (locationsData, locationData) <- locate data ;;
  if negb (truthy locationData) then Ok None
  else
    let district := prop locationData (js "LocationName") in
    let updateTime :=
      or_else (opt_get locationsData (js "DatasetDescription")) (VStr []) in
    weatherElements <- weatherElementsOf locationData ;;
    let wxTimes := or_else (element weatherElements (js "天氣現象")) (VArr []) in
    bound <- loopBound wxTimes ;;
    forecasts <- forLoop weatherElements wxTimes bound 0 [] ;;
    Ok (Some {| city := locationName; district := district;
                updateTime := updateTime; forecasts := forecasts |}).

Definition configError : reply :=
  {| status := 500;
     body := VObj [ (js "error", VStr (js "伺服器設定錯誤"));
                    (js "message",
                     VStr (js "請在 .env 檔案中設定 CWA_API_KEY")) ] |}.

Definition notFound (locationName : jstring) : reply :=
  {| status := 404;
     body := VObj [ (js "error", VStr (js "查無資料"));
                    (js "message",
                     VStr (js "無法取得" ++ locationName ++ js "天氣資料")) ] |}.

Definition success (w : weatherData) : reply :=
  {| status := 200;
     body := VObj [ (js "success", VBool true);
                    (js "data", weatherData_object w) ] |}.

(** Lines 112-217, after [axios.get] has resolved. *)
Definition respond (locationName : value) (data : value) : result reply :=
  found <- transform locationName data ;;
  match found with
  | None => name <- to_string locationName ;; Ok (notFound name)
  | Some w => Ok (success w)
  end.

(** The [catch] block, lines 218-239. *)
Definition onError (error : js_error) : result reply :=
  match error with
  | AxiosError _ (Some (upstreamStatus, upstreamData)) =>
      message <- get upstreamData (js "message") ;;
      Ok {| status := upstreamStatus;
            body := VObj [ (js "error", VStr (js "CWA API 錯誤"));
                           (js "message",
                            or_else message (VStr (js "無法取得天氣資料")));
                           (js "details", upstreamData) ] |}
  | _ =>
      Ok {| status := 500;
            body := VObj [ (js "error", VStr (js "伺服器錯誤"));
                           (js "message",
                            VStr (js "無法取得天氣資料，請稍後再試"));
                           (js "debug", VStr (error_message error)) ] |}
  end.

(** Lines 99-110: the request [axios.get] is given. *)
Definition upstreamCall (CWA_API_KEY : value) (locationName : value)
  : result axios_request :=
  url <- requestUrl locationName ;;
  Ok {| url := url; Authorization := CWA_API_KEY |}.

(** The [try] block, lines 82-217.  [network] is the upstream as [axios.get]
    sees it; [sent] is the list of requests issued so far, which the call
    extends. *)
Definition tryBlock (CWA_API_KEY : value) (network : axios_request -> settled)
    (req : request) (sent : list axios_request)
  : result reply * list axios_request :=
  if negb (truthy CWA_API_KEY) then (Ok configError, sent)
  else
    let locationName := resolveLocation req in
    match upstreamCall CWA_API_KEY locationName with
    | Ok call =>
        match network call with
        | Fulfilled data => (respond locationName data, sent ++ [call])
        | RejectedWith error => (Throw error, sent ++ [call])
        end
    | Throw e => (Throw e, sent)
    end.

(** [getWeather]: [Ok r] is the reply sent; [Throw e] is an exception that
    leaves the [catch] block, so that the handler's promise rejects and no
    reply is sent by it. *)
Definition getWeather (CWA_API_KEY : value) (network : axios_request -> settled)
    (req : request) (sent : list axios_request)
  : result reply * list axios_request :=
  match tryBlock CWA_API_KEY network req sent with
  | (Throw error, sent') => (onError error, sent')
  | done => done
  end.

(* ================================================================== *)
(** * Vocabulary of the specification *)
(* ================================================================== *)

(** The first region entry of a payload and its first sub-location entry,
    [undefined] when anything on the way is missing. *)
Definition firstRegion (data : value) : value :=
  opt_idx (opt_get (opt_get data (js "records")) (js "Locations")) 0.

Definition firstSubLocation (data : value) : value :=
  opt_idx (opt_get (firstRegion data) (js "Location")) 0.

(** The element [e] carries the name [name]: its [ElementName], taken as a
    property key, is [name]. *)
Definition named (name : jstring) (e : value) : bool :=
  match get e (js "ElementName") with
  | Ok n => match to_string n with
            | Ok k => jstring_eqb k name
            | _ => false
            end
  | _ => false
  end.

Definition noneNamed (name : jstring) (elements : list value) : bool :=
  forallb (fun e => negb (named name e)) elements.

(** The number of entries of a time series: the length of an array (or of a
    string, whose entries are its code units), none for anything else. *)
Definition seriesLength (series : value) : nat :=
  match series with
  | VArr items => length items
  | VStr s => length s
  | _ => 0
  end.

(** The entry a series has at index [i], if it has one. *)
Definition entryAt (series : value) (i : nat) : option value :=
  let entry := opt_idx series i in
  if truthy entry then Some entry else None.

(** The raw value of an entry: the named field of its first element value. *)
Definition rawValue (entry : value) (field : jstring) : value :=
  opt_get (opt_idx (opt_get entry (js "ElementValue")) 0) field.

Definition masterName : jstring := js "天氣現象".

(** The ten attributes of a period: the element that carries the series, the
    field read from its entries, the unit appended (if any) and the field of
    the period that receives the value. *)
Record attributeRow : Type := {
  seriesName : jstring;
  fieldName : jstring;
  unitSuffix : option jstring;
  select : forecast -> value
}.

Definition numericAttributes : list attributeRow :=
  [ {| seriesName := js "溫度"; fieldName := js "Temperature";
       unitSuffix := Some (js "°C"); select := temperature |};
    {| seriesName := js "體感溫度"; fieldName := js "ApparentTemperature";
       unitSuffix := Some (js "°C"); select := apparentTemp |};
    {| seriesName := js "風速"; fieldName := js "WindSpeed";
       unitSuffix := Some (js " m/s"); select := windSpeed |};
    {| seriesName := js "3小時降雨機率";
       fieldName := js "ProbabilityOfPrecipitation";
       unitSuffix := Some (js "%"); select := rain |};
    {| seriesName := js "相對濕度"; fieldName := js "RelativeHumidity";
       unitSuffix := Some (js "%"); select := humidity |} ].

Definition textAttributes : list attributeRow :=
  [ {| seriesName := js "舒適度指數"; fieldName := js "ComfortIndex";
       unitSuffix := None; select := comfort |};
    {| seriesName := js "風向"; fieldName := js "WindDirection";
       unitSuffix := None; select := windDirection |};
    {| seriesName := js "天氣預報綜合描述"; fieldName := js "WeatherDescription";
       unitSuffix := None; select := description |} ].


Definition otherAttributes : list attributeRow :=
  numericAttributes ++ textAttributes.


(** What an attribute shows for a raw value. *)
Definition rendered (row : attributeRow) (raw : value) : result value :=
  match unitSuffix row with
  | Some suffix => withUnit suffix raw
  | None => orEmpty raw
  end.

(* ------------------------------------------------------------------ *)
(** ** Sample documents *)

Definition timeEntry (start stop : jstring) (fields : list (jstring * value))
  : value :=
  VObj [ (js "StartTime", VStr start); (js "EndTime", VStr stop);
         (js "ElementValue", VArr [VObj fields]) ].

Definition weatherElement (name : jstring) (times : list value) : value :=
  VObj [ (js "ElementName", VStr name); (js "Time", VArr times) ].

Definition document (elements : list value) : value :=
  VObj [ (js "success", VStr (js "true"));
         (js "records",
          VObj [ (js "Locations",
                  VArr [ VObj [ (js "DatasetDescription",
                                 VStr (js "臺灣各縣市鄉鎮未來1週天氣預報"));
                                (js "LocationsName", VStr (js "臺北市"));
                                (js "Location",
                                 VArr [ VObj [ (js "LocationName",
                                                VStr (js "中正區"));
                                               (js "WeatherElement",
                                                VArr elements) ] ]) ] ]) ]) ].

Definition wxEntry (n : nat) : value :=
  timeEntry (js "2025-01-01T06:00:00+08:00" ++ show_nat n)
            (js "2025-01-01T18:00:00+08:00" ++ show_nat n)
            [ (js "Weather", VStr (js "晴")); (js "WeatherCode", VStr (js "01")) ].

Definition tempEntry (n : nat) : value :=
  timeEntry (js "s") (js "e") [ (js "Temperature", VStr (show_nat (20 + n))) ].

(** An element named [__proto__] whose [Time] is an object. *)
Definition protoElement (members : list (jstring * value)) : value :=
  VObj [ (js "ElementName", VStr (js "__proto__"));
         (js "Time", VObj members) ].

(** A document without an element named 天氣現象, and one without an element
    named 溫度; an element named [__proto__] carries a member of that
    name. *)
Definition inheritedMaster : value :=
  document [ protoElement [ (masterName, VArr [wxEntry 0]) ] ].


(** A master series that is an object with a [length] and one entry. *)
Definition objectSeries (len : value) : value :=
  document
    [ VObj [ (js "ElementName", VStr masterName);
             (js "Time", VObj [ (js "length", len); (js "0", wxEntry 0) ]) ] ].


(** Eight entries of weather phenomenon, five of temperature. *)
Definition eightAndFive : value :=
  document [ weatherElement (js "溫度") (map tempEntry (seq 0 5));
             weatherElement masterName (map wxEntry (seq 0 8)) ].

Definition configuredKey : value := VStr (js "CWA-KEY").

Definition requestFor (name : jstring) : request :=
  {| query_locationName := VStr name; params_locationName := VUndef |}.

Definition bareRequest : request :=
  {| query_locationName := VUndef; params_locationName := VUndef |}.

Definition answering (data : value) (call : axios_request) : settled :=
  Fulfilled data.

Definition failing (error : js_error) (call : axios_request) : settled :=
  RejectedWith error.

(** The last element of a list that carries a name. *)
Fixpoint lastNamed (name : jstring) (elements : list value) : option value :=
  match elements with
  | [] => None
  | e :: rest =>
      match lastNamed name rest with
      | Some e' => Some e'
      | None => if named name e then Some e else None
      end
  end.

(** What an attribute shows at index [i] of its series: the rendering of the
    raw value of the entry there, the empty string when there is no entry. *)
Definition shown (row : attributeRow) (series : value) (i : nat)
  : result value :=
  match entryAt series i with
  | Some entry => rendered row (rawValue entry (fieldName row))
  | None => Ok (VStr [])
  end.

Definition ownKeys (v : value) : list jstring :=
  match v with
  | VObj props => map fst props
  | _ => []
  end.

Definition emptyData : weatherData :=
  {| city := VUndef; district := VUndef; updateTime := VUndef;
     forecasts := [] |}.

Definition transformed (locationName data : value) : weatherData :=
  match transform locationName data with
  | Ok (Some w) => w
  | _ => emptyData
  end.


Definition rateLimited : value :=
  VObj [ (js "message", VStr (js "rate limited")) ].


(** A sub-location without [WeatherElement], and a document without
    [records]. *)
Definition noElements : value :=
  VObj [ (js "records",
          VObj [ (js "Locations",
                  VArr [ VObj [ (js "Location",
                                 VArr [ VObj [ (js "LocationName",
                                                VStr (js "中正區")) ] ]) ] ]) ]) ].

Definition noRegions : value :=
  VObj [ (js "records", VObj [ (js "Locations", VArr []) ]) ].

Definition noRecords : value := VObj [ (js "success", VStr (js "true")) ].

Definition defaultCall : axios_request :=
  {| url := js "https://opendata.cwa.gov.tw/api/v1/rest/datastore/F-D0047-075";
     Authorization := configuredKey |}.

Definition isTypeError (e : js_error) : Prop :=
  match e with TypeError _ => True | AxiosError _ _ => False end.

(* ================================================================== *)
(** * server.js: the other routes (lines 242-292) *)
(* ================================================================== *)

(** Line 243: [GET /]. *)
Definition rootReply : reply :=
  {| status := 200;
     body :=
       VObj [ (js "message", VStr (js "歡迎使用 CWA 天氣預報 API"));
              (js "endpoints",
               VObj [ (js "weather",
                       VStr (js "/api/weather?locationName=縣市名稱"));
                      (js "weatherByPath",
                       VStr (js "/api/weather/:locationName"));
                      (js "locations", VStr (js "/api/locations"));
                      (js "health", VStr (js "/api/health")) ]);
              (js "defaultLocation", VStr DEFAULT_LOCATION);
              (js "validLocations", VArr (map VStr VALID_LOCATIONS)) ] |}.

(** Line 257: [GET /api/health]; [now] is [new Date().toISOString()]. *)
Definition healthReply (now : jstring) : reply :=
  {| status := 200;
     body := VObj [ (js "status", VStr (js "OK"));
                    (js "timestamp", VStr now) ] |}.

(** Line 262: [GET /api/locations]. *)
Definition locationsReply : reply :=
  {| status := 200;
     body :=
       VObj [ (js "success", VBool true);
              (js "data",
               VObj [ (js "locations", VArr (map VStr VALID_LOCATIONS));
                      (js "default", VStr DEFAULT_LOCATION) ]) ] |}.

(** Line 279: the error-handling middleware. *)
Definition errorMiddleware (err : js_error) : reply :=
  {| status := 500;
     body := VObj [ (js "error", VStr (js "伺服器錯誤"));
                    (js "message", VStr (error_message err)) ] |}.

(** Line 288: the last middleware, for a request no route took. *)
Definition unmatchedReply : reply :=
  {| status := 404;
     body := VObj [ (js "error", VStr (js "找不到此路徑")) ] |}.

(** The route Express matched a GET request to.  Matching the path is the
    router's work; what runs then is registered in lines 243-292.  A path
    parameter is a non-empty string; [/api/weather] has none. *)
Inductive route : Type :=
| Root
| Health
| Locations
| Weather
| WeatherByPath (locationName : jstring)
| Unmatched.

Definition server (CWA_API_KEY : value) (network : axios_request -> settled)
    (now : jstring) (matched : route) (query_locationName : value)
    (sent : list axios_request) : result reply * list axios_request :=
  match matched with
  | Root => (Ok rootReply, sent)
  | Health => (Ok (healthReply now), sent)
  | Locations => (Ok locationsReply, sent)
  | Weather =>
      getWeather CWA_API_KEY network
        {| query_locationName := query_locationName;
           params_locationName := VUndef |} sent
  | WeatherByPath locationName =>
      getWeather CWA_API_KEY network
        {| query_locationName := query_locationName;
           params_locationName := VStr locationName |} sent
  | Unmatched => (Ok unmatchedReply, sent)
  end.

(* ------------------------------------------------------------------ *)
(** ** The documented shape of the upstream document *)




(** The element can be entered in the table (lines 134-136). *)
Definition readable (e : value) : bool :=
  match collect [e] emptyObject with
  | Ok _ => true
  | _ => false
  end.

(** The two elements of [eightAndFive] in the other order, and with a
    shadowed temperature element in front. *)
Definition fiveAndEight : value :=
  document [ weatherElement masterName (map wxEntry (seq 0 8));
             weatherElement (js "溫度") (map tempEntry (seq 0 5)) ].

Definition shadowed : value :=
  document [ weatherElement (js "溫度") (map tempEntry (seq 3 2));
             weatherElement (js "溫度") (map tempEntry (seq 0 5));
             weatherElement masterName (map wxEntry (seq 0 8)) ].

(** An upstream error without a body. *)
Definition bodiless : js_error :=
  AxiosError (js "Request failed with status code 502") (Some (502%Z, VNull)).

(** A region without description whose sub-location has no name and no
    elements. *)
Definition anonymous : value :=
  VObj [ (js "records",
          VObj [ (js "Locations",
                  VArr [ VObj [ (js "Location",
                                 VArr [ VObj [ (js "WeatherElement",
                                                VArr []) ] ]) ] ]) ]) ].

(** The name of an element as the table takes it: its [ElementName] as a
    property key. *)
Definition nameOf (e : value) : result jstring :=
  n <- get e (js "ElementName") ;;
  to_string n.

(** The series the elements give a name: the [Time] of the last element of
    that name, [undefined] when there is none.  It is what the table
    returns for the name when no element is named [__proto__]
    ([element_seriesOf]). *)
Definition seriesOf (name : jstring) (elements : list value) : value :=
  match lastNamed name elements with
  | Some e => prop e (js "Time")
  | None => VUndef
  end.

(** Three entries of weather phenomenon, with five and with three of
    temperature. *)
Definition threeAndFive : value :=
  document [ weatherElement (js "溫度") (map tempEntry (seq 0 5));
             weatherElement masterName (map wxEntry (seq 0 3)) ].

Definition threeAndThree : value :=
  document [ weatherElement (js "溫度") (map tempEntry (seq 0 3));
             weatherElement masterName (map wxEntry (seq 0 3)) ].

(* ================================================================== *)
(** * Lemmas *)
(* ================================================================== *)

Example utf16_bmp : utf16 "°C 天氣" = [176; 67; 32; 22825; 27683]%N.
Proof. reflexivity. Qed.

Example utf16_astral : utf16 "🚀" = [55357; 56960]%N.
Proof. reflexivity. Qed.

Example show_nat_120 : show_nat 120 = js "120".
Proof. reflexivity. Qed.

Lemma jstring_eqb_eq (a b : jstring) : jstring_eqb a b = true <-> a = b.
Proof.
  unfold jstring_eqb. destruct (list_eq_dec N.eq_dec a b); split; congruence.
Qed.

Lemma jstring_eqb_refl (a : jstring) : jstring_eqb a a = true.
Proof. now apply jstring_eqb_eq. Qed.

Lemma jstring_eqb_neq (a b : jstring) : jstring_eqb a b = false <-> a <> b.
Proof.
  unfold jstring_eqb. destruct (list_eq_dec N.eq_dec a b); split; congruence.
Qed.

Lemma digits_inj (d d' : Decimal.uint) : digits d = digits d' -> d = d'.
Proof.
  revert d'. induction d; destruct d'; cbn; intros H;
    try discriminate; try reflexivity;
    injection H as H; f_equal; auto.
Qed.

Lemma show_nat_inj (i j : nat) : show_nat i = show_nat j -> i = j.
Proof.
  unfold show_nat. intros H. apply digits_inj in H.
  rewrite <- (Unsigned.of_to i), <- (Unsigned.of_to j). now rewrite H.
Qed.

Lemma digits_head (d : Decimal.uint) (c : N) (r : jstring) :
  digits d = c :: r -> (48 <= c <= 57)%N.
Proof. destruct d; cbn; intros H; try discriminate; injection H as <- _; lia. Qed.

Lemma show_nat_not_length (i : nat) :
  jstring_eqb (show_nat i) (js "length") = false.
Proof.
  apply jstring_eqb_neq. unfold show_nat. intros H.
  apply digits_head in H. lia.
Qed.

Lemma key_index_show (i n : nat) :
  key_index (show_nat i) n = if i <? n then Some i else None.
Proof.
  unfold key_index.
  destruct (find _ (seq 0 n)) as [j|] eqn:F.
  - apply find_some in F as [Hin Hj].
    apply jstring_eqb_eq, show_nat_inj in Hj. subst j.
    apply in_seq in Hin.
    destruct (Nat.ltb_spec i n); [reflexivity | lia].
  - destruct (Nat.ltb_spec i n) as [Hlt|]; [|reflexivity].
    assert (Hin : In i (seq 0 n)) by (apply in_seq; lia).
    apply (find_none _ _ F) in Hin.
    now rewrite jstring_eqb_refl in Hin.
Qed.

(** Indexing an array or a string by a number. *)
Lemma prop_index_array (items : list value) (i : nat) :
  prop (VArr items) (show_nat i) = nth i items VUndef.
Proof.
  cbn [prop]. rewrite show_nat_not_length, key_index_show.
  destruct (Nat.ltb_spec i (length items)); [reflexivity|].
  symmetry. now apply nth_overflow.
Qed.

Lemma prop_index_string (s : jstring) (i : nat) :
  prop (VStr s) (show_nat i) =
  match nth_error s i with Some c => VStr [c] | None => VUndef end.
Proof.
  cbn [prop]. rewrite show_nat_not_length, key_index_show.
  destruct (Nat.ltb_spec i (length s)) as [|H]; [reflexivity|].
  apply nth_error_None in H. now rewrite H.
Qed.

(* ------------------------------------------------------------------ *)
(** ** Sequencing *)

Lemma bind_Ok {A B} (r : result A) (k : A -> result B) (b : B) :
  bind r k = Ok b -> exists a, r = Ok a /\ k a = Ok b.
Proof. destruct r; cbn; intros H; try discriminate. eauto. Qed.

Ltac bind_inv H :=
  let a := fresh "x" in
  let E := fresh "E" in
  apply bind_Ok in H as (a & E & H).

Lemma get_Ok (v : value) (k : jstring) (x : value) :
  get v k = Ok x -> nullish v = false /\ x = prop v k.
Proof.
  unfold get. destruct (nullish v); intros H; [discriminate|].
  injection H as <-. auto.
Qed.

Lemma get_present (v : value) (k : jstring) :
  nullish v = false -> get v k = Ok (prop v k).
Proof. unfold get. now intros ->. Qed.

Lemma opt_get_present (v : value) (k : jstring) :
  nullish v = false -> opt_get v k = prop v k.
Proof. unfold opt_get. now intros ->. Qed.

Lemma truthy_present (v : value) : truthy v = true -> nullish v = false.
Proof. now destruct v. Qed.

Lemma opt_get_truthy (v : value) (k : jstring) :
  truthy (opt_get v k) = true -> nullish v = false.
Proof. unfold opt_get. now destruct (nullish v). Qed.

(* ------------------------------------------------------------------ *)
(** ** Locating the sub-location (lines 114-115) *)

Lemma locate_Ok (data a b : value) :
  locate data = Ok (a, b) -> a = firstRegion data /\ b = firstSubLocation data.
Proof.
  unfold locate. intros H.
  bind_inv H. bind_inv H. injection H as <- <-.
  apply get_Ok in E as [Hd ->]. apply get_Ok in E0 as [Hr ->].
  unfold firstSubLocation, firstRegion, opt_idx.
  now rewrite (opt_get_present _ _ Hd), (opt_get_present _ _ Hr).
Qed.

Lemma opt_get_base (v : value) (k : jstring) :
  nullish (opt_get v k) = false -> nullish v = false.
Proof. unfold opt_get. now destruct (nullish v). Qed.

Lemma locate_found (data : value) :
  truthy (firstSubLocation data) = true ->
  locate data = Ok (firstRegion data, firstSubLocation data).
Proof.
  intros H. apply truthy_present in H.
  unfold firstSubLocation, opt_idx in H.
  do 2 apply opt_get_base in H.
  unfold firstRegion, opt_idx in H.
  do 2 apply opt_get_base in H.
  pose proof (opt_get_base _ _ H) as Hd.
  rewrite (opt_get_present _ _ Hd) in H.
  unfold locate.
  rewrite (get_present _ _ Hd). cbn [bind].
  rewrite (get_present _ _ H). cbn [bind].
  unfold firstSubLocation, firstRegion, opt_idx.
  now rewrite (opt_get_present _ _ Hd), (opt_get_present _ _ H).
Qed.

(* ------------------------------------------------------------------ *)
(** ** The element table (lines 133-136) *)

Lemma jstring_eqb_sym (a b : jstring) : jstring_eqb a b = jstring_eqb b a.
Proof.
  destruct (jstring_eqb a b) eqn:E; symmetry.
  - apply jstring_eqb_eq in E. subst. apply jstring_eqb_refl.
  - apply jstring_eqb_neq in E. apply jstring_eqb_neq. congruence.
Qed.

(** An assignment to [__proto__] leaves the other names as they are; an
    assignment to another name is a new own property. *)
Lemma lookup_assign (o : jsobject) (key name : jstring) (v : value) :
  name <> js "__proto__" \/ key <> js "__proto__" ->
  lookup name (own (assign o key v)) =
  if jstring_eqb name key then Some v else lookup name (own o).
Proof.
  intros H. unfold assign.
  destruct (jstring_eqb key (js "__proto__")) eqn:K; cbn [andb].
  - apply jstring_eqb_eq in K. subst key.
    destruct H as [H|H]; [|congruence].
    apply jstring_eqb_neq in H. rewrite H.
    destruct (negb _ && _); [now destruct v | cbn [own lookup]; now rewrite H].
  - reflexivity.
Qed.

Lemma proto_assign (o : jsobject) (key : jstring) (v : value) :
  key <> js "__proto__" -> proto (assign o key v) = proto o.
Proof.
  intros H. unfold assign. apply jstring_eqb_neq in H. now rewrite H.
Qed.

Lemma named_key (name : jstring) (e n : value) (key : jstring) :
  get e (js "ElementName") = Ok n -> to_string n = Ok key ->
  named name e = jstring_eqb name key.
Proof.
  intros E K. unfold named. rewrite E, K. apply jstring_eqb_sym.
Qed.

(** The own property the table ends with under a name: the [Time] of the
    last element of that name. *)
Lemma collect_own (name : jstring) (elements : list value) :
  name <> js "__proto__" \/ noneNamed (js "__proto__") elements = true ->
  forall o o',
    collect elements o = Ok o' ->
    lookup name (own o') =
    match lastNamed name elements with
    | Some e => Some (prop e (js "Time"))
    | None => lookup name (own o)
    end.
Proof.
  induction elements as [|e rest IH]; intros P o o' H.
  - injection H as <-. reflexivity.
  - cbn [collect] in H. bind_inv H. bind_inv H. bind_inv H.
    apply get_Ok in E0 as [_ ->].
    assert (P' : name <> js "__proto__"
                 \/ noneNamed (js "__proto__") rest = true).
    { destruct P as [P|P]; [now left | right].
      cbn [noneNamed forallb] in P. now apply andb_prop in P. }
    rewrite (IH P' _ _ H). cbn [lastNamed].
    destruct (lastNamed name rest); [reflexivity|].
    rewrite (named_key name _ _ _ E E1), lookup_assign.
    + now destruct (jstring_eqb name x1).
    + destruct P as [P|P]; [now left | right].
      cbn [noneNamed forallb] in P. apply andb_prop in P as [P _].
      rewrite (named_key (js "__proto__") _ _ _ E E1) in P.
      intros ->. now rewrite jstring_eqb_refl in P.
Qed.

(** The prototype stays where it is as long as no element is named
    [__proto__]. *)
Lemma collect_proto (elements : list value) :
  noneNamed (js "__proto__") elements = true ->
  forall o o', collect elements o = Ok o' -> proto o' = proto o.
Proof.
  induction elements as [|e rest IH]; intros P o o' H.
  - now injection H as <-.
  - cbn [collect] in H. bind_inv H. bind_inv H. bind_inv H.
    cbn [noneNamed forallb] in P. apply andb_prop in P as [Pe Pr].
    rewrite (IH Pr _ _ H). apply proto_assign.
    rewrite (named_key (js "__proto__") _ _ _ E E1) in Pe.
    intros ->. now rewrite jstring_eqb_refl in Pe.
Qed.

(** What the table returns for the name of an element: the [Time] of the
    last element of that name, whatever the prototype has become. *)
Lemma element_named (name : jstring) (elements : list value)
    (o table : jsobject) (e : value) :
  name <> js "__proto__" ->
  collect elements o = Ok table ->
  lastNamed name elements = Some e ->
  element table name = prop e (js "Time").
Proof.
  intros P H L. unfold element.
  now rewrite (collect_own name elements (or_introl P) _ _ H), L.
Qed.

(** In a document without an element named [__proto__], the table returns
    the [Time] of the last element of a name, and [undefined] for a name no
    element has. *)
Lemma element_seriesOf (name : jstring) (elements : list value)
    (table : jsobject) :
  noneNamed (js "__proto__") elements = true ->
  collect elements emptyObject = Ok table ->
  element table name = seriesOf name elements.
Proof.
  intros P H. unfold element, seriesOf.
  rewrite (collect_own name elements (or_intror P) _ _ H).
  rewrite (collect_proto _ P _ _ H).
  now destruct (lastNamed name elements).
Qed.

Lemma lastNamed_none (name : jstring) (elements : list value) :
  noneNamed name elements = true -> lastNamed name elements = None.
Proof.
  induction elements as [|e rest IH]; [reflexivity|].
  cbn. intros H. apply andb_prop in H as [He Hr].
  rewrite (IH Hr). now destruct (named name e).
Qed.

Lemma lastNamed_split (name : jstring) (before after : list value) (e : value) :
  named name e = true -> noneNamed name after = true ->
  lastNamed name (before ++ e :: after) = Some e.
Proof.
  intros He Ha. induction before as [|b before IH]; cbn.
  - now rewrite (lastNamed_none _ _ Ha), He.
  - now rewrite IH.
Qed.

Lemma weatherElementsOf_Ok (locationData : value) (table : jsobject) :
  weatherElementsOf locationData = Ok table ->
  exists elements,
    prop locationData (js "WeatherElement") = VArr elements
    /\ collect elements emptyObject = Ok table.
Proof.
  unfold weatherElementsOf. intros H. bind_inv H.
  apply get_Ok in E as [_ ->].
  destruct (prop locationData (js "WeatherElement")); try discriminate.
  eauto.
Qed.

(* ------------------------------------------------------------------ *)
(** ** The loop (lines 141-212) *)

Lemma forLoop_Ok (table : jsobject) (wxTimes : value) :
  forall remaining i acc out,
    forLoop table wxTimes remaining i acc = Ok out ->
    exists fresh,
      out = acc ++ fresh /\ length fresh = remaining
      /\ forall j f, nth_error fresh j = Some f ->
                     period table wxTimes (i + j) = Ok f.
Proof.
  induction remaining as [|n IH]; intros i acc out H.
  - injection H as <-. exists []. rewrite List.app_nil_r. repeat split.
    intros [|j] f; discriminate.
  - cbn [forLoop] in H. bind_inv H.
    apply IH in H as (fresh & -> & Hlen & Hnth).
    exists (x :: fresh). rewrite <- app_assoc. repeat split.
    + cbn. now rewrite Hlen.
    + intros [|j] f Hj; cbn in Hj.
      * injection Hj as <-. now rewrite Nat.add_0_r.
      * rewrite Nat.add_succ_r. now apply Hnth.
Qed.

(** The bound of the loop for a series that is not an object with a
    [length] of its own: the number of its entries. *)
Lemma loopBound_plain (series : value) :
  (forall props, series = VObj props -> has_key (js "length") props = false) ->
  loopBound (or_else series (VArr [])) = Ok (seriesLength series).
Proof.
  intros H. unfold or_else.
  destruct series as [| |[|]|r|[|c s]|items|props]; try reflexivity.
  - now destruct (truthy (VNum r)).
  - specialize (H props eq_refl). unfold has_key in H.
    cbn [truthy loopBound prop seriesLength].
    destruct (lookup (js "length") props); [discriminate|].
    now destruct props.
Qed.

Lemma loopBound_falsy (series : value) :
  truthy series = false -> loopBound (or_else series (VArr [])) = Ok 0.
Proof. unfold or_else. now intros ->. Qed.

(** What a successful [transform] went through. *)
Lemma transform_Some (locationName data : value) (w : weatherData) :
  transform locationName data = Ok (Some w) ->
  exists elements table,
    truthy (firstSubLocation data) = true
    /\ prop (firstSubLocation data) (js "WeatherElement") = VArr elements
    /\ collect elements emptyObject = Ok table
    /\ city w = locationName
    /\ district w = prop (firstSubLocation data) (js "LocationName")
    /\ updateTime w =
       or_else (opt_get (firstRegion data) (js "DatasetDescription")) (VStr [])
    /\ loopBound (or_else (element table masterName) (VArr []))
       = Ok (length (forecasts w))
    /\ forall i f,
         nth_error (forecasts w) i = Some f ->
         period table (or_else (element table masterName) (VArr [])) i = Ok f.
Proof.
  unfold transform. intros H. bind_inv H. destruct x as [a b].
  apply locate_Ok in E as [-> ->].
  destruct (truthy (firstSubLocation data)) eqn:T; cbn [negb] in H;
    [|discriminate].
  bind_inv H. bind_inv H. bind_inv H. injection H as <-.
  apply weatherElementsOf_Ok in E as (elements & Hel & Hc).
  apply forLoop_Ok in E1 as (fresh & -> & Hlen & Hnth).
  exists elements, x. cbn [forecasts city district updateTime app].
  repeat split; auto. now rewrite Hlen.
Qed.

(* ------------------------------------------------------------------ *)
(** ** One period (lines 142-211) *)


Lemma opt_idx_present (series : value) (i : nat) :
  truthy (opt_idx series i) = true ->
  idx series i = Ok (opt_idx series i).
Proof.
  unfold opt_idx, idx. intros H. apply opt_get_truthy in H.
  now rewrite (get_present _ _ H), (opt_get_present _ _ H).
Qed.

(** The eight guarded blocks all compute the same thing. *)
Lemma attribute_eq (table : jsobject) (name : jstring) (i : nat)
    (field : jstring) (format : value -> result value) :
  attribute table name i field format =
  match entryAt (element table name) i with
  | Some entry => format (rawValue entry field)
  | None => Ok (VStr [])
  end.
Proof.
  unfold attribute, entryAt.
  destruct (truthy (opt_idx (element table name) i)) eqn:T; [|reflexivity].
  unfold firstValue. rewrite (opt_idx_present _ _ T). cbn [bind].
  pose proof (truthy_present _ T) as P.
  rewrite (get_present _ _ P). cbn [bind].
  unfold rawValue. now rewrite (opt_get_present _ _ P).
Qed.




Lemma bind_defined {A B} (r : result A) (k : A -> result B) :
  (exists a, r = Ok a) -> (forall a, exists b, k a = Ok b) ->
  exists b, bind r k = Ok b.
Proof. intros [a ->] H. exact (H a). Qed.

(** The body of the loop fails only on a master entry that is [undefined] or
    [null], or on a raw value that is there and cannot be rendered. *)
Lemma period_total (table : jsobject) (wxTimes : value)
    (i : nat) (timeData : value) :
  idx wxTimes i = Ok timeData -> nullish timeData = false ->
  (forall row, In row otherAttributes ->
     exists v, shown row (element table (seriesName row)) i = Ok v) ->
  exists f, period table wxTimes i = Ok f.
Proof.
  intros Ht P H. unfold period. rewrite Ht.
  change (bind (Ok timeData) ?k) with (k timeData). cbv beta.
  do 3 (apply bind_defined;
        [rewrite (get_present _ _ P); eauto | intros ?]).
  cbv zeta.
  apply Forall_forall in H.
  unfold otherAttributes, numericAttributes, textAttributes in H.
  cbn [app] in H.
  repeat
    match type of H with
    | Forall _ (_ :: _) =>
        let E := fresh "E" in
        pose proof (Forall_inv H) as E;
        unfold shown, rendered in E;
        cbn [seriesName fieldName unitSuffix] in E;
        apply Forall_inv_tail in H
    end.
  do 8 (apply bind_defined; [rewrite attribute_eq; assumption | intros ?]).
  eauto.
Qed.

Lemma forLoop_total (table : jsobject) (wxTimes : value) :
  forall remaining i acc,
    (forall j, j < remaining ->
       exists f, period table wxTimes (i + j) = Ok f) ->
    exists out, forLoop table wxTimes remaining i acc = Ok out.
Proof.
  induction remaining as [|n IH]; intros i acc H; cbn [forLoop].
  - eauto.
  - apply bind_defined.
    + rewrite <- (Nat.add_0_r i). apply H. lia.
    + intros f. apply IH. intros j Hj.
      rewrite Nat.add_succ_l, <- Nat.add_succ_r. apply H. lia.
Qed.

(* ------------------------------------------------------------------ *)
(** ** From the document to the periods *)


Lemma master_name : masterName <> js "__proto__".
Proof. discriminate. Qed.

(** The series the table holds for a name other than [__proto__], read off
    the document. *)
Lemma series_of_elements (name : jstring) (elements : list value)
    (table : jsobject) :
  name <> js "__proto__" ->
  collect elements emptyObject = Ok table ->
  (noneNamed name elements = true ->
   noneNamed (js "__proto__") elements = true ->
   element table name = VUndef)
  /\ (forall before e after,
        elements = before ++ e :: after ->
        named name e = true -> noneNamed name after = true ->
        element table name = prop e (js "Time")).
Proof.
  intros P H. split.
  - intros N Np. rewrite (element_seriesOf _ _ _ Np H). unfold seriesOf.
    now rewrite (lastNamed_none _ _ N).
  - intros before e after -> He Ha.
    apply (element_named name _ _ _ e P H). now apply lastNamed_split.
Qed.

Lemma periods_of_transform (locationName data : value) (w : weatherData) :
  transform locationName data = Ok (Some w) ->
  exists elements table,
    prop (firstSubLocation data) (js "WeatherElement") = VArr elements
    /\ collect elements emptyObject = Ok table
    /\ loopBound (or_else (element table masterName) (VArr []))
       = Ok (length (forecasts w))
    /\ forall i f,
         nth_error (forecasts w) i = Some f ->
         period table (element table masterName) i = Ok f.
Proof.
  intros H.
  destruct (transform_Some _ _ _ H)
    as (elements & table & _ & He & Hc & _ & _ & _ & Hlen & Hp).
  exists elements, table. repeat split; try assumption.
  intros i f Hi. specialize (Hp i f Hi).
  destruct (truthy (element table masterName)) eqn:T.
  - unfold or_else in Hp. now rewrite T in Hp.
  - rewrite (loopBound_falsy _ T) in Hlen. injection Hlen as Hlen.
    assert (i < length (forecasts w)) by (apply nth_error_Some; congruence).
    lia.
Qed.









(* ------------------------------------------------------------------ *)
(** ** What the transformer throws *)

Lemma bind_Throw {A B} (r : result A) (k : A -> result B) (e : js_error) :
  bind r k = Throw e ->
  r = Throw e \/ exists a, r = Ok a /\ k a = Throw e.
Proof.
  destruct r; cbn; intros H; [eauto | left; congruence].
Qed.

Lemma get_throws (v : value) (k : jstring) (e : js_error) :
  get v k = Throw e -> isTypeError e.
Proof.
  unfold get. destruct (nullish v); intros H; [|discriminate].
  now injection H as <-.
Qed.

Lemma sequence_throws {A} (rs : list (result A)) (e : js_error) :
  Forall (fun r => r = Throw e -> isTypeError e) rs ->
  sequence rs = Throw e -> isTypeError e.
Proof.
  induction 1 as [|r rest Hr _ IH]; cbn; [discriminate|].
  intros H. apply bind_Throw in H as [H|(a & _ & H)]; [auto|].
  apply bind_Throw in H as [H|(l & _ & H)]; [auto | discriminate].
Qed.

Lemma to_string_throws : forall v e, to_string v = Throw e -> isTypeError e.
Proof.
  fix IH 1. intros [| |[|]|r|s|items|props] e; cbn [to_string];
    try discriminate.
  - intros H. apply bind_Throw in H as [H|(a & _ & H)]; [|discriminate].
    revert H. apply sequence_throws.
    induction items as [|x rest IHrest]; constructor.
    + destruct (nullish x); [discriminate | apply IH].
    + exact IHrest.
  - destruct (has_key _ props); [|discriminate].
    intros H. now injection H as <-.
Qed.

Lemma attribute_throws (table : jsobject) (name : jstring)
    (i : nat) (field : jstring) (suffix : option jstring) (e : js_error) :
  attribute table name i field
    (match suffix with Some s => withUnit s | None => orEmpty end)
  = Throw e -> isTypeError e.
Proof.
  rewrite attribute_eq. destruct (entryAt _ i); [|discriminate].
  destruct suffix; [|discriminate].
  unfold withUnit. destruct (truthy _); [|discriminate].
  intros H. apply bind_Throw in H as [H|(a & _ & H)]; [|discriminate].
  now apply to_string_throws in H.
Qed.

Lemma period_throws (table : jsobject) (wxTimes : value)
    (i : nat) (e : js_error) :
  period table wxTimes i = Throw e -> isTypeError e.
Proof.
  unfold period. intros H.
  do 4 (apply bind_Throw in H as [H|(? & _ & H)];
        [now apply get_throws in H|]).
  cbv zeta in H.
  repeat
    (apply bind_Throw in H as [H|(? & _ & H)];
     [ first [ now apply (attribute_throws _ _ _ _ (Some _)) in H
             | now apply (attribute_throws _ _ _ _ None) in H ] |]).
  discriminate.
Qed.

Lemma forLoop_throws (table : jsobject) (wxTimes : value)
    (e : js_error) :
  forall remaining i acc,
    forLoop table wxTimes remaining i acc = Throw e -> isTypeError e.
Proof.
  induction remaining as [|n IH]; intros i acc; cbn [forLoop];
    [discriminate|].
  intros H. apply bind_Throw in H as [H|(f & _ & H)].
  - now apply period_throws in H.
  - now apply IH in H.
Qed.

Lemma collect_throws (elements : list value) (e : js_error) :
  forall table, collect elements table = Throw e -> isTypeError e.
Proof.
  induction elements as [|x rest IH]; intros table H; [discriminate|].
  cbn [collect] in H.
  do 2 (apply bind_Throw in H as [H|(? & _ & H)];
        [now apply get_throws in H|]).
  apply bind_Throw in H as [H|(k & _ & H)];
    [now apply to_string_throws in H|].
  now apply IH in H.
Qed.

Lemma lessThan_throws (i : nat) (v : value) (e : js_error) :
  lessThan i v = Throw e -> isTypeError e.
Proof.
  destruct v; cbn [lessThan]; try discriminate;
    intros H; apply bind_Throw in H as [H|(s & _ & H)];
    try discriminate; now apply to_string_throws in H.
Qed.

Lemma indexesBelow_throws (len : value) (e : js_error) :
  forall most i, indexesBelow len i most = Throw e -> isTypeError e.
Proof.
  induction most as [|n IH]; intros i; cbn [indexesBelow]; [discriminate|].
  intros H. apply bind_Throw in H as [H|(more & _ & H)].
  - now apply lessThan_throws in H.
  - destruct more; [|discriminate].
    apply bind_Throw in H as [H|(m & _ & H)]; [|discriminate].
    now apply IH in H.
Qed.

(** Whatever the transformer throws is a [TypeError]: the [catch] block
    answers it 500. *)
Lemma transform_throws (locationName data : value) (e : js_error) :
  transform locationName data = Throw e -> isTypeError e.
Proof.
  unfold transform. intros H.
  apply bind_Throw in H as [H|([a b] & _ & H)].
  { unfold locate in H.
    do 2 (apply bind_Throw in H as [H|(? & _ & H)];
          [now apply get_throws in H|]).
    discriminate. }
  destruct (truthy b); cbn [negb] in H; [|discriminate].
  apply bind_Throw in H as [H|(table & _ & H)].
  { unfold weatherElementsOf in H.
    apply bind_Throw in H as [H|(l & _ & H)]; [now apply get_throws in H|].
    destruct l; try (now injection H as <-).
    now apply collect_throws in H. }
  apply bind_Throw in H as [H|(n & _ & H)].
  { destruct (or_else _ _); cbn [loopBound] in H; try discriminate;
      try (now injection H as <-).
    now apply indexesBelow_throws in H. }
  apply bind_Throw in H as [H|(fs & _ & H)]; [|discriminate].
  now apply forLoop_throws in H.
Qed.

(* ------------------------------------------------------------------ *)
(** ** The resolver and the dataset table (lines 19-72, 91-104) *)

Lemma includes_In (xs : list jstring) (v : value) :
  includes xs v = true <-> exists name, v = VStr name /\ In name xs.
Proof.
  split.
  - destruct v; cbn; try discriminate. intros H.
    apply existsb_exists in H as (x & Hin & Hx).
    apply jstring_eqb_eq in Hx. subst. eauto.
  - intros (name & -> & Hin). cbn. apply existsb_exists.
    exists name. split; [assumption | apply jstring_eqb_refl].
Qed.

(** Case analysis over the allow-list. *)
Ltac each_location H :=
  unfold VALID_LOCATIONS in H; cbn [In] in H;
  repeat (destruct H as [H|H]; [subst|]); [..|contradiction].

Lemma valid_truthy (name : jstring) :
  In name VALID_LOCATIONS -> truthy (VStr name) = true.
Proof. intros H. each_location H; reflexivity. Qed.

Lemma valid_dataset (name : jstring) :
  In name VALID_LOCATIONS -> exists id, datasetId (VStr name) = Ok (VStr id).
Proof. intros H. each_location H; eexists; vm_compute; reflexivity. Qed.

Lemma resolveLocation_valid (req : request) :
  exists name, resolveLocation req = VStr name /\ In name VALID_LOCATIONS.
Proof.
  unfold resolveLocation.
  set (raw := or_else _ _).
  destruct (truthy raw); cbn [negb orb].
  - destruct (includes VALID_LOCATIONS raw) eqn:I; cbn [negb].
    + now apply includes_In in I.
    + exists DEFAULT_LOCATION. split; [reflexivity|].
      unfold VALID_LOCATIONS, DEFAULT_LOCATION. cbn [In]. tauto.
  - exists DEFAULT_LOCATION. split; [reflexivity|].
    unfold VALID_LOCATIONS, DEFAULT_LOCATION. cbn [In]. tauto.
Qed.

Lemma upstreamCall_valid (key : value) (name : jstring) :
  In name VALID_LOCATIONS ->
  exists id,
    datasetId (VStr name) = Ok (VStr id)
    /\ upstreamCall key (VStr name) =
       Ok {| url := CWA_API_BASE_URL ++ js "/v1/rest/datastore/" ++ id;
             Authorization := key |}.
Proof.
  intros H. destruct (valid_dataset _ H) as [id Hid].
  exists id. split; [assumption|].
  unfold upstreamCall, requestUrl. now rewrite Hid.
Qed.

Lemma upstreamCall_resolved (key : value) (req : request) :
  exists call, upstreamCall key (resolveLocation req) = Ok call.
Proof.
  destruct (resolveLocation_valid req) as (name & -> & Hin).
  destruct (upstreamCall_valid key _ Hin) as (id & _ & ->). eauto.
Qed.

(** [getWeather] once the key is there and the upstream has answered. *)
Lemma getWeather_fulfilled (key : value) (network : axios_request -> settled)
    (req : request) (sent : list axios_request) (call : axios_request)
    (data : value) :
  truthy key = true ->
  upstreamCall key (resolveLocation req) = Ok call ->
  network call = Fulfilled data ->
  getWeather key network req sent =
  (match respond (resolveLocation req) data with
   | Throw error => onError error
   | done => done
   end, sent ++ [call]).
Proof.
  intros K C N. unfold getWeather, tryBlock. rewrite K, C, N. cbn [negb].
  now destruct (respond _ _).
Qed.

Lemma getWeather_rejected (key : value) (network : axios_request -> settled)
    (req : request) (sent : list axios_request) (call : axios_request)
    (error : js_error) :
  truthy key = true ->
  upstreamCall key (resolveLocation req) = Ok call ->
  network call = RejectedWith error ->
  getWeather key network req sent = (onError error, sent ++ [call]).
Proof.
  intros K C N. unfold getWeather, tryBlock. now rewrite K, C, N.
Qed.

(* ================================================================== *)
(** * The claims *)
(* ================================================================== *)

(** C3. The resolver.  The raw input is [req.query.locationName ||
    req.params.locationName].  When it is absent, or is anything but one of
    the 22 allow-listed names, the resolved location is the default, 臺中市;
    when it is one of the names, it is returned unchanged.  The resolver is
    a total function, so no input makes it raise, and the request it leads to
    is always well formed. *)
Theorem resolver_defaults (req : request) :
  let raw := or_else (query_locationName req) (params_locationName req) in
  (raw = VUndef -> resolveLocation req = VStr DEFAULT_LOCATION)
  /\ ((forall name, raw = VStr name -> ~ In name VALID_LOCATIONS) ->
      resolveLocation req = VStr DEFAULT_LOCATION)
  /\ (forall name, raw = VStr name -> In name VALID_LOCATIONS ->
      resolveLocation req = VStr name)
  /\ DEFAULT_LOCATION = js "臺中市"
  /\ length VALID_LOCATIONS = 22
  /\ forall key, exists call, upstreamCall key (resolveLocation req) = Ok call.
Proof.
  cbv zeta. unfold resolveLocation.
  set (raw := or_else _ _).
  repeat split.
  - intros ->. reflexivity.
  - intros H.
    destruct (includes VALID_LOCATIONS raw) eqn:I.
    + apply includes_In in I as (name & E & Hin). now destruct (H name E).
    + now rewrite orb_true_r.
  - intros name E Hin. rewrite E.
    rewrite (valid_truthy _ Hin).
    now rewrite (proj2 (includes_In VALID_LOCATIONS (VStr name)))
      by (exists name; auto).
  - intros key. apply upstreamCall_resolved.
Qed.

Lemma resolver_defaults_witness :
  (forall name, VStr (js "東京都") = VStr name -> ~ In name VALID_LOCATIONS)
  /\ resolveLocation (requestFor (js "東京都")) = VStr DEFAULT_LOCATION
  /\ In (js "臺北市") VALID_LOCATIONS
  /\ resolveLocation (requestFor (js "臺北市")) = VStr (js "臺北市").
Proof.
  assert (H : forall name,
             VStr (js "東京都") = VStr name -> ~ In name VALID_LOCATIONS).
  { intros name E Hin. injection E as <-.
    each_location Hin; discriminate. }
  assert (Hin : In (js "臺北市") VALID_LOCATIONS).
  { unfold VALID_LOCATIONS. cbn [In]. tauto. }
  split; [exact H|]. split; [|split; [exact Hin|]].
  - exact (proj1 (proj2 (resolver_defaults (requestFor (js "東京都")))) H).
  - exact (proj1 (proj2 (proj2 (resolver_defaults (requestFor (js "臺北市")))))
             (js "臺北市") eq_refl Hin).
Defined.

(** C4. The dataset table.  Each of the 22 allow-listed names has a dataset
    id in [LOCATION_API_MAP], the names are pairwise distinct, the table has
    no other key, and two different names never share an id. *)
Theorem dataset_table_injective :
  length VALID_LOCATIONS = 22
  /\ NoDup VALID_LOCATIONS
  /\ (forall name, In name (ownKeys LOCATION_API_MAP) <->
                   In name VALID_LOCATIONS)
  /\ (forall name, In name VALID_LOCATIONS ->
        exists id, datasetId (VStr name) = Ok (VStr id))
  /\ (forall a b, In a VALID_LOCATIONS -> In b VALID_LOCATIONS ->
        datasetId (VStr a) = datasetId (VStr b) -> a = b).
Proof.
  split; [reflexivity|]. split; [|split; [|split]].
  - unfold VALID_LOCATIONS.
    repeat (constructor;
            [cbn [In]; intros H;
             repeat (destruct H as [H|H]; [discriminate H|]); exact H|]).
    constructor.
  - intros name. unfold LOCATION_API_MAP, VALID_LOCATIONS.
    cbn [ownKeys map fst In]. tauto.
  - apply valid_dataset.
  - intros a b Ha Hb E.
    set (idOf := fun n => match datasetId (VStr n) with
                          | Ok (VStr s) => s
                          | _ => []
                          end).
    assert (C : forallb (fun x => forallb (fun y =>
                  implb (jstring_eqb (idOf x) (idOf y)) (jstring_eqb x y))
                  VALID_LOCATIONS) VALID_LOCATIONS = true)
      by (vm_compute; reflexivity).
    rewrite forallb_forall in C. specialize (C a Ha).
    rewrite forallb_forall in C. specialize (C b Hb).
    assert (Eid : idOf a = idOf b) by (unfold idOf; now rewrite E).
    rewrite Eid, jstring_eqb_refl in C. now apply jstring_eqb_eq.
Qed.

(** C1, as the code has it.  Whenever the transformer produces a
    [weatherData], the first sub-location lists its weather elements in an
    array, and the number of periods is the length of the series of the
    element named 天氣現象 (the last of that name, were there several),
    whatever the other elements are: the number of entries of an array or
    of a string, the number of indexes below [length] for an object, none
    for any other value.  When the series is empty there is no period; when
    no element has that name there is no period either, provided no element
    is named [__proto__]. *)
Theorem period_count (locationName data : value) (w : weatherData) :
  transform locationName data = Ok (Some w) ->
  exists elements,
    prop (firstSubLocation data) (js "WeatherElement") = VArr elements
    /\ (forall before e after,
          elements = before ++ e :: after ->
          named masterName e = true ->
          noneNamed masterName after = true ->
          loopBound (or_else (prop e (js "Time")) (VArr []))
          = Ok (length (forecasts w))
          /\ ((forall props, prop e (js "Time") = VObj props ->
                             has_key (js "length") props = false) ->
              length (forecasts w) = seriesLength (prop e (js "Time"))))
    /\ (noneNamed masterName elements = true ->
        noneNamed (js "__proto__") elements = true ->
        forecasts w = []).
Proof.
  intros H.
  destruct (periods_of_transform _ _ _ H)
    as (elements & table & He & Hc & Hlen & _).
  destruct (series_of_elements masterName _ _ master_name Hc)
    as [Hnone Hsplit].
  exists elements. split; [assumption|]. split.
  - intros before e after E Hn Ha.
    rewrite (Hsplit before e after E Hn Ha) in Hlen.
    split; [assumption|].
    intros P. rewrite (loopBound_plain _ P) in Hlen. congruence.
  - intros N Np. apply length_zero_iff_nil.
    rewrite (Hnone N Np) in Hlen. now injection Hlen as <-.
Qed.

Lemma period_count_witness :
  transform (VStr (js "臺北市")) eightAndFive =
    Ok (Some (transformed (VStr (js "臺北市")) eightAndFive))
  /\ length (forecasts (transformed (VStr (js "臺北市")) eightAndFive)) = 8.
Proof.
  assert (H : transform (VStr (js "臺北市")) eightAndFive =
              Ok (Some (transformed (VStr (js "臺北市")) eightAndFive)))
    by (vm_compute; reflexivity).
  split; [exact H|].
  destruct (period_count _ _ _ H) as (elements & He & Hsplit & _).
  vm_compute in He. injection He as <-.
  refine (proj2 (Hsplit [weatherElement (js "溫度") (map tempEntry (seq 0 5))]
                        (weatherElement masterName (map wxEntry (seq 0 8))) []
                        eq_refl eq_refl eq_refl) _).
  intros props E. discriminate E.
Defined.

(** C1 as stated fails on a document whose only element is named
    [__proto__] and carries an object for [Time]: no element is named
    天氣現象, the table inherits the member of that name from its new
    prototype, and the result has one period. *)
Lemma period_count_inherited :
  prop (firstSubLocation inheritedMaster) (js "WeatherElement")
  = VArr [ protoElement [ (masterName, VArr [wxEntry 0]) ] ]
  /\ noneNamed masterName [ protoElement [ (masterName, VArr [wxEntry 0]) ] ]
     = true
  /\ exists w,
       transform (VStr (js "臺北市")) inheritedMaster = Ok (Some w)
       /\ length (forecasts w) = 1
       /\ forecasts w <> [].
Proof.
  split; [reflexivity|]. split; [reflexivity|].
  eexists. split; [vm_compute; reflexivity|]. split; [reflexivity|].
  discriminate.
Qed.




(* ------------------------------------------------------------------ *)
(** ** Values of the attributes *)










(* ------------------------------------------------------------------ *)
(** ** What [res.json] writes of a period *)

Lemma serialized_keys (props : list (jstring * value)) :
  ownKeys (serialized (VObj props)) =
  map fst (filter (fun kv => match snd kv with VUndef => false | _ => true end)
                  props).
Proof.
  cbn [serialized ownKeys].
  induction props as [|[k x] rest IH]; [reflexivity|].
  cbn [filter snd]. destruct x; cbn [map fst]; now rewrite <- ?IH.
Qed.

Lemma serialized_key_in (props : list (jstring * value)) (k : jstring) :
  In k (ownKeys (serialized (VObj props))) <->
  exists x, In (k, x) props /\ x <> VUndef.
Proof.
  rewrite serialized_keys, in_map_iff. split.
  - intros ([k' x] & <- & Hin). apply filter_In in Hin as [Hin Hx].
    exists x. split; [assumption|]. cbn in Hx. now destruct x.
  - intros (x & Hin & Hx). exists (k, x). split; [reflexivity|].
    apply filter_In. split; [assumption|]. cbn. now destruct x.
Qed.



(* ------------------------------------------------------------------ *)
(** ** The handler around the transformer *)

Lemma locate_records (data : value) :
  nullish (opt_get data (js "records")) = false ->
  locate data = Ok (firstRegion data, firstSubLocation data).
Proof.
  intros H. pose proof (opt_get_base _ _ H) as Hd.
  rewrite (opt_get_present _ _ Hd) in H.
  unfold locate. rewrite (get_present _ _ Hd). cbn [bind].
  rewrite (get_present _ _ H). cbn [bind].
  unfold firstSubLocation, firstRegion, opt_idx.
  now rewrite (opt_get_present _ _ Hd), (opt_get_present _ _ H).
Qed.

Lemma respond_resolved (req : request) (data : value) :
  exists name,
    resolveLocation req = VStr name
    /\ respond (resolveLocation req) data =
       match transform (VStr name) data with
       | Ok None => Ok (notFound name)
       | Ok (Some w) => Ok (success w)
       | Throw e => Throw e
       end.
Proof.
  destruct (resolveLocation_valid req) as (name & -> & _).
  exists name. split; [reflexivity|].
  unfold respond. destruct (transform (VStr name) data) as [[w|]|];
    reflexivity.
Qed.

(** C6, as the code has it.  When the document has its [records] and the
    first sub-location of the first region is absent (or is any falsy
    value) -- the region list missing or empty, the first region without
    sub-locations -- the reply is 404 with the two fields [error] and
    [message], the message naming the resolved location; no [weatherData]
    is produced. *)
Theorem not_found_reply (key : value) (network : axios_request -> settled)
    (req : request) (sent : list axios_request) (call : axios_request)
    (data : value) :
  truthy key = true ->
  upstreamCall key (resolveLocation req) = Ok call ->
  network call = Fulfilled data ->
  nullish (opt_get data (js "records")) = false ->
  truthy (firstSubLocation data) = false ->
  exists name,
    resolveLocation req = VStr name
    /\ transform (VStr name) data = Ok None
    /\ getWeather key network req sent =
       (Ok {| status := 404;
              body := VObj [ (js "error", VStr (js "查無資料"));
                             (js "message",
                              VStr (js "無法取得" ++ name
                                    ++ js "天氣資料")) ] |},
        sent ++ [call]).
Proof.
  intros K C N R F.
  destruct (respond_resolved req data) as (name & En & Er).
  exists name. split; [assumption|].
  assert (T : transform (VStr name) data = Ok None).
  { unfold transform. rewrite (locate_records _ R). cbn [bind].
    now rewrite F. }
  split; [assumption|].
  rewrite (getWeather_fulfilled _ _ _ _ _ _ K C N), Er, T. reflexivity.
Qed.

Lemma not_found_reply_witness :
  truthy configuredKey = true
  /\ upstreamCall configuredKey (resolveLocation bareRequest) = Ok defaultCall
  /\ nullish (opt_get noRegions (js "records")) = false
  /\ truthy (firstSubLocation noRegions) = false
  /\ exists name,
       resolveLocation bareRequest = VStr name
       /\ transform (VStr name) noRegions = Ok None
       /\ getWeather configuredKey (answering noRegions) bareRequest [] =
          (Ok {| status := 404;
                 body := VObj [ (js "error", VStr (js "查無資料"));
                                (js "message",
                                 VStr (js "無法取得" ++ name
                                       ++ js "天氣資料")) ] |},
           [] ++ [defaultCall]).
Proof.
  repeat (split; [reflexivity|]).
  exact (not_found_reply configuredKey (answering noRegions) bareRequest []
           defaultCall noRegions eq_refl eq_refl eq_refl eq_refl eq_refl).
Defined.

(** C6 as stated fails on a document without [records]: its first region
    entry is absent, and the reply is 500, from the catch-all branch. *)
Lemma not_found_needs_records :
  firstRegion noRecords = VUndef
  /\ firstSubLocation noRecords = VUndef
  /\ exists r,
       getWeather configuredKey (answering noRecords) bareRequest [] =
         (Ok r, [defaultCall])
       /\ status r = 500%Z
       /\ status r <> 404%Z.
Proof.
  split; [reflexivity|]. split; [reflexivity|].
  eexists. split; [vm_compute; reflexivity|]. split; [reflexivity|].
  discriminate.
Qed.

(** C9. A sub-location without its element list.  When the first
    sub-location is there (truthy) and its [WeatherElement] is absent
    ([undefined] or [null]), reading [forEach] of it throws; the reply is
    the 500 of the catch-all branch, with the fields [error], [message] and
    [debug], not the 404 of the not-found branch. *)
Theorem missing_elements_reply (key : value)
    (network : axios_request -> settled) (req : request)
    (sent : list axios_request) (call : axios_request) (data : value) :
  truthy key = true ->
  upstreamCall key (resolveLocation req) = Ok call ->
  network call = Fulfilled data ->
  truthy (firstSubLocation data) = true ->
  nullish (prop (firstSubLocation data) (js "WeatherElement")) = true ->
  let thrown :=
    TypeError (CannotRead (prop (firstSubLocation data) (js "WeatherElement"))
                          (js "forEach")) in
  (forall locationName, transform locationName data = Throw thrown)
  /\ getWeather key network req sent =
     (Ok {| status := 500;
            body := VObj [ (js "error", VStr (js "伺服器錯誤"));
                           (js "message",
                            VStr (js "無法取得天氣資料，請稍後再試"));
                           (js "debug", VStr (error_message thrown)) ] |},
      sent ++ [call]).
Proof.
  intros K C N F W thrown.
  assert (T : forall locationName, transform locationName data = Throw thrown).
  { intros locationName. unfold transform.
    rewrite (locate_found _ F). cbn [bind]. rewrite F. cbn [negb].
    unfold weatherElementsOf.
    rewrite (get_present _ _ (truthy_present _ F)). cbn [bind].
    subst thrown.
    destruct (prop (firstSubLocation data) (js "WeatherElement"));
      try discriminate; reflexivity. }
  split; [exact T|].
  destruct (respond_resolved req data) as (name & En & Er).
  rewrite (getWeather_fulfilled _ _ _ _ _ _ K C N), Er, T. reflexivity.
Qed.

Lemma missing_elements_reply_witness :
  truthy configuredKey = true
  /\ upstreamCall configuredKey (resolveLocation bareRequest) = Ok defaultCall
  /\ truthy (firstSubLocation noElements) = true
  /\ nullish (prop (firstSubLocation noElements) (js "WeatherElement")) = true
  /\ exists r,
       getWeather configuredKey (answering noElements) bareRequest [] =
         (Ok r, [defaultCall])
       /\ status r = 500%Z
       /\ ownKeys (body r) = [js "error"; js "message"; js "debug"].
Proof.
  repeat (split; [reflexivity|]).
  eexists. split.
  - exact (proj2 (missing_elements_reply configuredKey (answering noElements)
                    bareRequest [] defaultCall noElements
                    eq_refl eq_refl eq_refl eq_refl eq_refl)).
  - split; reflexivity.
Defined.

(** After the upstream has answered with a document, the reply is 200 with
    the [weatherData], 404, or the 500 of the catch-all branch. *)
Lemma fulfilled_replies (key : value) (network : axios_request -> settled)
    (req : request) (sent : list axios_request) (call : axios_request)
    (data : value) :
  truthy key = true ->
  upstreamCall key (resolveLocation req) = Ok call ->
  network call = Fulfilled data ->
  exists name,
    resolveLocation req = VStr name
    /\ match transform (VStr name) data with
       | Ok (Some w) =>
           fst (getWeather key network req sent) = Ok (success w)
       | Ok None =>
           fst (getWeather key network req sent) = Ok (notFound name)
       | Throw e =>
           exists r, fst (getWeather key network req sent) = Ok r
                     /\ status r = 500%Z
       end.
Proof.
  intros K C N.
  destruct (respond_resolved req data) as (name & En & Er).
  exists name. split; [assumption|].
  rewrite (getWeather_fulfilled _ _ _ _ _ _ K C N), Er. cbn [fst].
  destruct (transform (VStr name) data) as [[w|]|e] eqn:T; try reflexivity.
  apply transform_throws in T. destruct e; [|contradiction].
  eexists. split; reflexivity.
Qed.

(** C5, as the code has it.  The handler issues one upstream request and
    never a second.  When the upstream answers with an error status and a
    body (anything but [undefined] and [null]), the reply carries that
    status, and its body is a new object: a fixed [error] text, [message]
    taken from the upstream body's [message] (a fixed text when that is
    missing or falsy), and the upstream body, unchanged, under [details].
    When the request fails without an answer, the reply is 500 with the
    fields [error], [message] and [debug], the last holding the message of
    the failure. *)
Theorem upstream_failure_reply (key : value)
    (network : axios_request -> settled) (req : request)
    (sent : list axios_request) (call : axios_request) :
  truthy key = true ->
  upstreamCall key (resolveLocation req) = Ok call ->
  (forall text upstreamStatus upstreamBody,
     network call =
       RejectedWith (AxiosError text (Some (upstreamStatus, upstreamBody))) ->
     nullish upstreamBody = false ->
     getWeather key network req sent =
     (Ok {| status := upstreamStatus;
            body := VObj [ (js "error", VStr (js "CWA API 錯誤"));
                           (js "message",
                            or_else (prop upstreamBody (js "message"))
                                    (VStr (js "無法取得天氣資料")));
                           (js "details", upstreamBody) ] |},
      sent ++ [call]))
  /\ (forall text,
        network call = RejectedWith (AxiosError text None) ->
        getWeather key network req sent =
        (Ok {| status := 500;
               body := VObj [ (js "error", VStr (js "伺服器錯誤"));
                              (js "message",
                               VStr (js "無法取得天氣資料，請稍後再試"));
                              (js "debug", VStr text) ] |},
         sent ++ [call])).
Proof.
  intros K C. split.
  - intros text upstreamStatus upstreamBody N P.
    rewrite (getWeather_rejected _ _ _ _ _ _ K C N).
    unfold onError. now rewrite (get_present _ _ P).
  - intros text N.
    now rewrite (getWeather_rejected _ _ _ _ _ _ K C N).
Qed.

Lemma upstream_failure_reply_witness :
  truthy configuredKey = true
  /\ upstreamCall configuredKey (resolveLocation bareRequest) = Ok defaultCall
  /\ getWeather configuredKey
       (failing (AxiosError (js "Request failed with status code 503")
                            (Some (503%Z, rateLimited))))
       bareRequest [] =
     (Ok {| status := 503;
            body := VObj [ (js "error", VStr (js "CWA API 錯誤"));
                           (js "message", VStr (js "rate limited"));
                           (js "details", rateLimited) ] |},
      [defaultCall]).
Proof.
  repeat (split; [reflexivity|]).
  exact (proj1 (upstream_failure_reply configuredKey
                  (failing (AxiosError (js "Request failed with status code 503")
                                       (Some (503%Z, rateLimited))))
                  bareRequest [] defaultCall eq_refl eq_refl)
           (js "Request failed with status code 503") 503%Z rateLimited
           eq_refl eq_refl).
Defined.

(** C5 as stated fails twice: the body of an upstream error is wrapped, not
    passed through, and a failure without an answer has no upstream status
    or body to pass; it is answered 500. *)
Lemma upstream_failure_not_passed_through :
  (exists r,
     getWeather configuredKey
       (failing (AxiosError (js "Request failed with status code 503")
                            (Some (503%Z, rateLimited))))
       bareRequest [] = (Ok r, [defaultCall])
     /\ status r = 503%Z
     /\ body r <> rateLimited
     /\ serialized (body r) <> serialized rateLimited)
  /\ (exists r,
        getWeather configuredKey
          (failing (AxiosError (js "connect ECONNREFUSED") None))
          bareRequest [] = (Ok r, [defaultCall])
        /\ status r = 500%Z
        /\ ownKeys (body r) = [js "error"; js "message"; js "debug"]).
Proof.
  split.
  - eexists. split; [vm_compute; reflexivity|].
    split; [reflexivity|]. split; discriminate.
  - eexists. split; [vm_compute; reflexivity|].
    split; reflexivity.
Qed.

(** C8. Determinism.  The reply to a request is a function of the resolved
    location and of the document the upstream sent, and of nothing else:
    two runs of the handler that resolve the same location and receive the
    same document send the same reply, whatever the API key, the other
    answers of the network, the rest of the request and the requests issued
    before; and what the transformer made of the document is the same in
    both. *)
Theorem reply_determined (key key' : value)
    (network network' : axios_request -> settled) (req req' : request)
    (sent sent' : list axios_request) (call call' : axios_request)
    (data : value) :
  truthy key = true -> truthy key' = true ->
  resolveLocation req = resolveLocation req' ->
  upstreamCall key (resolveLocation req) = Ok call ->
  upstreamCall key' (resolveLocation req') = Ok call' ->
  network call = Fulfilled data -> network' call' = Fulfilled data ->
  fst (getWeather key network req sent)
  = fst (getWeather key' network' req' sent')
  /\ forall r r',
       fst (getWeather key network req sent) = Ok r ->
       fst (getWeather key' network' req' sent') = Ok r' ->
       status r = status r' /\ serialized (body r) = serialized (body r').
Proof.
  intros K K' E C C' N N'.
  assert (Eq : fst (getWeather key network req sent)
               = fst (getWeather key' network' req' sent')).
  { rewrite (getWeather_fulfilled _ _ _ _ _ _ K C N).
    rewrite (getWeather_fulfilled _ _ _ _ _ _ K' C' N').
    cbn [fst]. now rewrite E. }
  split; [exact Eq|].
  intros r r' R R'. rewrite Eq, R' in R. injection R as <-. auto.
Qed.

Lemma reply_determined_witness :
  truthy configuredKey = true
  /\ truthy (VStr (js "another key")) = true
  /\ resolveLocation bareRequest = resolveLocation (requestFor (js "東京都"))
  /\ fst (getWeather configuredKey (answering eightAndFive) bareRequest [])
     = fst (getWeather (VStr (js "another key")) (answering eightAndFive)
              (requestFor (js "東京都")) [defaultCall; defaultCall]).
Proof.
  repeat (split; [reflexivity|]).
  exact (proj1
           (reply_determined configuredKey (VStr (js "another key"))
              (answering eightAndFive) (answering eightAndFive)
              bareRequest (requestFor (js "東京都")) [] [defaultCall; defaultCall]
              defaultCall
              {| url := url defaultCall;
                 Authorization := VStr (js "another key") |}
              eightAndFive
              eq_refl eq_refl eq_refl eq_refl eq_refl eq_refl eq_refl)).
Defined.

(* ------------------------------------------------------------------ *)
(** ** When the transformer produces a result *)

(** The transformer produces a [weatherData] as soon as the sub-location is
    there with its element table, the master series is an array without
    [undefined] or [null] entries, and the raw values that are there can be
    rendered. *)
Lemma transform_total (locationName data : value) (elements items : list value)
    (table : jsobject) :
  truthy (firstSubLocation data) = true ->
  prop (firstSubLocation data) (js "WeatherElement") = VArr elements ->
  collect elements emptyObject = Ok table ->
  element table masterName = VArr items ->
  (forall i timeData,
     nth_error items i = Some timeData ->
     nullish timeData = false
     /\ forall row, In row otherAttributes ->
          exists v, shown row (element table (seriesName row)) i = Ok v) ->
  exists w,
    transform locationName data = Ok (Some w)
    /\ length (forecasts w) = length items.
Proof.
  intros F He Hc Em Hitems.
  assert (L : exists out,
             forLoop table (VArr items) (length items) 0 [] = Ok out).
  { apply forLoop_total. intros j Hj. cbn [Nat.add].
    destruct (nth_error items j) as [timeData|] eqn:Ej.
    - destruct (Hitems j timeData Ej) as [P Hrows].
      apply (period_total table (VArr items) j timeData); try assumption.
      unfold idx, get. cbn [nullish]. rewrite prop_index_array.
      now rewrite (nth_error_nth _ _ _ Ej).
    - apply nth_error_None in Ej. lia. }
  destruct L as [out L].
  pose proof (forLoop_Ok _ _ _ _ _ _ L) as (fresh & -> & Hlen & _).
  eexists. split.
  - unfold transform. rewrite (locate_found _ F). cbn [bind].
    rewrite F. cbn [negb]. unfold weatherElementsOf.
    rewrite (get_present _ _ (truthy_present _ F)). cbn [bind].
    rewrite He, Hc. cbn [bind]. unfold masterName in Em. rewrite Em.
    unfold or_else. cbn [truthy loopBound bind].
    rewrite L. cbn [bind]. reflexivity.
  - cbn [forecasts app]. exact Hlen.
Qed.

(* ------------------------------------------------------------------ *)
(** ** The scenarios of the specification *)

Example scenario_default_city :
  fst (getWeather configuredKey (answering eightAndFive) bareRequest [])
  = Ok (success (transformed (VStr DEFAULT_LOCATION) eightAndFive))
  /\ city (transformed (VStr DEFAULT_LOCATION) eightAndFive)
     = VStr DEFAULT_LOCATION.
Proof. split; vm_compute; reflexivity. Qed.

Example scenario_eight_and_five :
  fst (getWeather configuredKey (answering eightAndFive)
         (requestFor (js "臺北市")) [])
  = Ok (success (transformed (VStr (js "臺北市")) eightAndFive))
  /\ map temperature
       (forecasts (transformed (VStr (js "臺北市")) eightAndFive)) =
     [ VStr (js "20°C"); VStr (js "21°C"); VStr (js "22°C");
       VStr (js "23°C"); VStr (js "24°C"); VStr []; VStr []; VStr [] ].
Proof. split; vm_compute; reflexivity. Qed.

Example scenario_missing_key :
  getWeather VUndef (answering eightAndFive) bareRequest []
  = (Ok configError, []).
Proof. reflexivity. Qed.

(* ================================================================== *)
(** * Further properties of the code *)
(* ================================================================== *)

From Stdlib Require Import Permutation.

(* ------------------------------------------------------------------ *)
(** ** Requests to the upstream *)

(** X1. One request, and only one.  Whatever route a request matched and
    whatever it carries, the application issues no upstream request outside
    the two weather routes and none without an API key (the weather routes
    then answer the 500 of line 84, whatever the request and the upstream);
    on a weather route with a key it issues exactly one, whatever the
    upstream then answers: its URL is the datastore URL of the resolved
    location, one of the 22 allow-listed ones, and its [Authorization]
    parameter is the key.  No input reaches the URL. *)
Theorem one_upstream_request (key : value)
    (network : axios_request -> settled) (now : jstring) (matched : route)
    (query : value) (sent : list axios_request) :
  (truthy key = false ->
   snd (server key network now matched query sent) = sent
   /\ forall req, getWeather key network req sent = (Ok configError, sent))
  /\ (matched <> Weather -> (forall p, matched <> WeatherByPath p) ->
      snd (server key network now matched query sent) = sent)
  /\ (truthy key = true ->
      forall path,
        (matched = Weather /\ path = VUndef)
        \/ (exists p, matched = WeatherByPath p /\ path = VStr p) ->
        exists name id,
          resolveLocation {| query_locationName := query;
                             params_locationName := path |} = VStr name
          /\ In name VALID_LOCATIONS
          /\ datasetId (VStr name) = Ok (VStr id)
          /\ snd (server key network now matched query sent) =
             sent ++ [ {| url := CWA_API_BASE_URL
                                 ++ js "/v1/rest/datastore/" ++ id;
                          Authorization := key |} ]).
Proof.
  assert (N : truthy key = false ->
              forall req, getWeather key network req sent
                          = (Ok configError, sent)).
  { intros K req. unfold getWeather, tryBlock. now rewrite K. }
  assert (G : truthy key = true ->
              forall req,
              exists name id,
                resolveLocation req = VStr name
                /\ In name VALID_LOCATIONS
                /\ datasetId (VStr name) = Ok (VStr id)
                /\ snd (getWeather key network req sent) =
                   sent ++ [ {| url := CWA_API_BASE_URL
                                       ++ js "/v1/rest/datastore/" ++ id;
                                Authorization := key |} ]).
  { intros K req. unfold getWeather, tryBlock. rewrite K. cbn [negb].
    destruct (resolveLocation_valid req) as (name & En & Hin).
    rewrite En.
    destruct (upstreamCall_valid key _ Hin) as (id & Hid & ->).
    exists name, id. repeat split; try assumption.
    destruct (network _) as [data|error]; [|reflexivity].
    now destruct (respond (VStr name) data). }
  split; [|split].
  - intros K. split; [|now apply N].
    destruct matched; cbn [server snd]; try reflexivity;
      now rewrite (N K).
  - intros W P. destruct matched; cbn [server snd]; try reflexivity.
    + now destruct W.
    + now destruct (P locationName).
  - intros K path [[-> ->]|(p & -> & ->)]; cbn [server]; now apply G.
Qed.

(* ------------------------------------------------------------------ *)
(** ** The shape of the replies *)

Lemma onError_shape (error : js_error) (r : reply) :
  onError error = Ok r ->
  exists e m rest,
    body r = VObj ((js "error", VStr e) :: (js "message", m) :: rest)
    /\ e <> [] /\ truthy m = true.
Proof.
  unfold onError. intros H.
  destruct error as [why|text [[upstreamStatus upstreamData]|]].
  - injection H as <-. do 3 eexists. cbn [body].
    split; [reflexivity|]. split; [discriminate | reflexivity].
  - bind_inv H. injection H as <-. do 3 eexists. cbn [body].
    split; [reflexivity|]. split; [discriminate|].
    unfold or_else. now destruct (truthy x) eqn:T.
  - injection H as <-. do 3 eexists. cbn [body].
    split; [reflexivity|]. split; [discriminate | reflexivity].
Qed.

Lemma getWeather_shape (key : value) (network : axios_request -> settled)
    (req : request) (sent : list axios_request) (r : reply) :
  fst (getWeather key network req sent) = Ok r ->
  (exists w, r = success w)
  \/ exists e m rest,
       body r = VObj ((js "error", VStr e) :: (js "message", m) :: rest)
       /\ e <> [] /\ truthy m = true.
Proof.
  unfold getWeather, tryBlock.
  destruct (truthy key); cbn [negb].
  - destruct (resolveLocation_valid req) as (name & -> & Hin).
    destruct (upstreamCall_valid key _ Hin) as (id & _ & ->).
    destruct (network _) as [data|error]; cbn [fst].
    + unfold respond.
      destruct (transform (VStr name) data) as [[w|]|error]; cbn [bind fst].
      * intros H. injection H as <-. left. eauto.
      * intros H. injection H as <-. right. do 3 eexists. cbn [notFound body].
        split; [reflexivity|]. split; [discriminate | reflexivity].
      * intros H. right. now apply onError_shape with error.
    + intros H. right. now apply onError_shape with error.
  - cbn [fst]. intros H. injection H as <-. right. do 3 eexists.
    cbn [configError body].
    split; [reflexivity|]. split; [discriminate | reflexivity].
Qed.

(** X2. Failure is marked by [error].  On every route, a reply of the
    application either is a 200 whose body has no [error] member, or has a
    body that begins with an [error] member holding a non-empty string --
    followed, except for the unmatched-route 404, by a [message] member
    holding a truthy value.  So every reply with a status other than 200
    carries [error], and the error middleware of line 279 answers in the
    same shape. *)
Theorem error_member_marks_failure (key : value)
    (network : axios_request -> settled) (now : jstring) (matched : route)
    (query : value) (sent : list axios_request) (r : reply) :
  fst (server key network now matched query sent) = Ok r ->
  ((status r = 200%Z /\ ~ In (js "error") (ownKeys (body r)))
   \/ exists e rest,
        body r = VObj ((js "error", VStr e) :: rest)
        /\ e <> []
        /\ (matched = Unmatched
            \/ exists m rest',
                 rest = (js "message", m) :: rest' /\ truthy m = true))
  /\ forall err,
       status (errorMiddleware err) = 500%Z
       /\ exists e m,
            body (errorMiddleware err)
            = VObj [ (js "error", VStr e); (js "message", VStr m) ]
            /\ e <> [].
Proof.
  intros H. split.
  - assert (S : forall w,
               status (success w) = 200%Z
               /\ ~ In (js "error") (ownKeys (body (success w)))).
    { intros w. split; [reflexivity|]. cbn [success body ownKeys map fst In].
      intros [E|[E|[]]]; discriminate. }
    destruct matched; cbn [server fst] in H.
    + injection H as <-. left. split; [reflexivity|].
      cbn [rootReply body ownKeys map fst In].
      intros [E|[E|[E|[E|[]]]]]; discriminate.
    + injection H as <-. left. split; [reflexivity|].
      cbn [healthReply body ownKeys map fst In].
      intros [E|[E|[]]]; discriminate.
    + injection H as <-. left. split; [reflexivity|].
      cbn [locationsReply body ownKeys map fst In].
      intros [E|[E|[]]]; discriminate.
    + apply getWeather_shape in H as [[w ->]|(e & m & rest & -> & He & Hm)].
      * left. apply S.
      * right. exists e. eexists. split; [reflexivity|].
        split; [assumption|]. right. eauto.
    + apply getWeather_shape in H as [[w ->]|(e & m & rest & -> & He & Hm)].
      * left. apply S.
      * right. exists e. eexists. split; [reflexivity|].
        split; [assumption|]. right. eauto.
    + injection H as <-. right. do 2 eexists. cbn [unmatchedReply body].
      split; [reflexivity|]. split; [discriminate | now left].
  - intros err. split; [reflexivity|]. do 2 eexists.
    split; [reflexivity | discriminate].
Qed.

Lemma error_member_marks_failure_witness :
  fst (server configuredKey (failing bodiless) (js "2025-01-01T00:00:00.000Z")
         Unmatched VUndef [])
  = Ok unmatchedReply
  /\ exists e rest,
       body unmatchedReply = VObj ((js "error", VStr e) :: rest) /\ e <> [].
Proof.
  split; [reflexivity|].
  destruct (proj1 (error_member_marks_failure configuredKey (failing bodiless)
                     (js "2025-01-01T00:00:00.000Z") Unmatched VUndef []
                     unmatchedReply eq_refl))
    as [[E _]|(e & rest & Hb & He & _)].
  - discriminate E.
  - exists e, rest. auto.
Defined.

(** X3. After the upstream's document.  Once the key is there and the
    upstream has answered the request with a document, the reply is one of
    three: 200 with the [weatherData] the transformer made, whose [city] is
    the resolved, allow-listed location; the 404 naming that location, when
    the transformer found no sub-location; or the 500 of the catch-all
    branch, whose [debug] is the message of the [TypeError] the transformer
    threw.  No other status can follow a document. *)
Theorem document_reply_statuses (key : value)
    (network : axios_request -> settled) (req : request)
    (sent : list axios_request) (call : axios_request) (data : value)
    (r : reply) :
  truthy key = true ->
  upstreamCall key (resolveLocation req) = Ok call ->
  network call = Fulfilled data ->
  fst (getWeather key network req sent) = Ok r ->
  exists name,
    resolveLocation req = VStr name /\ In name VALID_LOCATIONS
    /\ ((exists w,
           transform (VStr name) data = Ok (Some w)
           /\ r = success w /\ status r = 200%Z /\ city w = VStr name)
        \/ (transform (VStr name) data = Ok None
            /\ r = notFound name /\ status r = 404%Z)
        \/ (exists why,
              transform (VStr name) data = Throw (TypeError why)
              /\ status r = 500%Z
              /\ body r =
                 VObj [ (js "error", VStr (js "伺服器錯誤"));
                        (js "message",
                         VStr (js "無法取得天氣資料，請稍後再試"));
                        (js "debug",
                         VStr (error_message (TypeError why))) ])).
Proof.
  intros K C N H.
  destruct (resolveLocation_valid req) as (name & En & Hin).
  exists name. split; [assumption|]. split; [assumption|].
  rewrite (getWeather_fulfilled _ _ _ _ _ _ K C N) in H. cbn [fst] in H.
  rewrite En in H. unfold respond in H.
  destruct (transform (VStr name) data) as [[w|]|error] eqn:T;
    cbn [bind] in H.
  - injection H as <-. left. exists w.
    repeat split.
    now destruct (transform_Some _ _ _ T)
      as (_ & _ & _ & _ & _ & Hc & _).
  - injection H as <-. right. left. auto.
  - right. right. pose proof (transform_throws _ _ _ T) as Te.
    destruct error as [why|]; [|contradiction].
    injection H as <-. exists why. auto.
Qed.

Lemma document_reply_statuses_witness :
  truthy configuredKey = true
  /\ upstreamCall configuredKey (resolveLocation bareRequest) = Ok defaultCall
  /\ fst (getWeather configuredKey (answering noElements) bareRequest [])
     = Ok {| status := 500;
             body := VObj [ (js "error", VStr (js "伺服器錯誤"));
                            (js "message",
                             VStr (js "無法取得天氣資料，請稍後再試"));
                            (js "debug",
                             VStr (js "Cannot read properties of undefined (reading 'forEach')")) ] |}
  /\ exists name,
       resolveLocation bareRequest = VStr name /\ In name VALID_LOCATIONS.
Proof.
  repeat (split; [reflexivity|]).
  destruct (document_reply_statuses configuredKey (answering noElements)
              bareRequest [] defaultCall noElements _
              eq_refl eq_refl eq_refl eq_refl)
    as (name & En & Hin & _).
  exists name. auto.
Defined.

(** X4. An upstream error without a body.  When the upstream answers with
    an error status and its body is [null] or [undefined], line 228 reads
    [message] of it inside the [catch] block: the [TypeError] leaves the
    handler, whose promise rejects, and the handler sends no reply.  The
    one request has been issued. *)
Theorem error_body_required (key : value)
    (network : axios_request -> settled) (req : request)
    (sent : list axios_request) (call : axios_request) (text : jstring)
    (upstreamStatus : Z) (upstreamBody : value) :
  truthy key = true ->
  upstreamCall key (resolveLocation req) = Ok call ->
  network call =
    RejectedWith (AxiosError text (Some (upstreamStatus, upstreamBody))) ->
  nullish upstreamBody = true ->
  getWeather key network req sent =
  (Throw (TypeError (CannotRead upstreamBody (js "message"))),
   sent ++ [call]).
Proof.
  intros K C N B.
  rewrite (getWeather_rejected _ _ _ _ _ _ K C N).
  unfold onError, get. now rewrite B.
Qed.

Lemma error_body_required_witness :
  truthy configuredKey = true
  /\ upstreamCall configuredKey (resolveLocation bareRequest) = Ok defaultCall
  /\ getWeather configuredKey (failing bodiless) bareRequest [] =
     (Throw (TypeError (CannotRead VNull (js "message"))), [defaultCall]).
Proof.
  repeat (split; [reflexivity|]).
  exact (error_body_required configuredKey (failing bodiless) bareRequest []
           defaultCall (js "Request failed with status code 502") 502%Z VNull
           eq_refl eq_refl eq_refl eq_refl).
Defined.

(* ------------------------------------------------------------------ *)
(** ** The resolver and the routes that list the locations *)

(** X5. The range of the resolver.  Whatever the query and path parameters
    are, the resolved location is one of the 22 allow-listed names and has
    a dataset id; resolving a resolved location again changes nothing; and
    the query parameter comes first: a truthy one decides alone -- so that
    an unknown name in the query gives the default even beside a valid name
    in the path -- and the path parameter counts only when the query one is
    missing or falsy. *)
Theorem resolver_range (q p : value) :
  let req := {| query_locationName := q; params_locationName := p |} in
  (exists name id,
     resolveLocation req = VStr name /\ In name VALID_LOCATIONS
     /\ datasetId (VStr name) = Ok (VStr id))
  /\ (forall p',
        resolveLocation {| query_locationName := resolveLocation req;
                           params_locationName := p' |}
        = resolveLocation req)
  /\ (truthy q = true ->
      resolveLocation req
      = resolveLocation {| query_locationName := q;
                           params_locationName := VUndef |})
  /\ (truthy q = true -> includes VALID_LOCATIONS q = false ->
      resolveLocation req = VStr DEFAULT_LOCATION)
  /\ (truthy q = false ->
      resolveLocation req
      = resolveLocation {| query_locationName := p;
                           params_locationName := VUndef |}).
Proof.
  cbv zeta. split; [|split; [|split; [|split]]].
  - destruct (resolveLocation_valid
                {| query_locationName := q; params_locationName := p |})
      as (name & En & Hin).
    destruct (valid_dataset _ Hin) as [id Hid]. eauto.
  - intros p'.
    destruct (resolveLocation_valid
                {| query_locationName := q; params_locationName := p |})
      as (name & -> & Hin).
    unfold resolveLocation at 1. cbn [query_locationName params_locationName].
    unfold or_else. rewrite (valid_truthy _ Hin). cbn [negb orb].
    rewrite (valid_truthy _ Hin).
    now rewrite (proj2 (includes_In VALID_LOCATIONS (VStr name)))
      by (exists name; auto).
  - intros T. unfold resolveLocation, or_else.
    cbn [query_locationName params_locationName]. now rewrite T.
  - intros T I. unfold resolveLocation, or_else.
    cbn [query_locationName params_locationName]. rewrite T. cbv iota.
    now rewrite T, I.
  - intros T. unfold resolveLocation, or_else.
    cbn [query_locationName params_locationName]. rewrite T. cbv iota.
    destruct (truthy p) eqn:Tp; cbv iota; [now rewrite Tp | reflexivity].
Qed.

(** X6. The locations the application lists.  [GET /api/locations] and
    [GET /] list the same 22 locations and the same default, and these are
    the resolver's: each listed location, sent as [locationName], is the
    one resolved, and anything that is not listed resolves to the listed
    default. *)
Theorem advertised_locations_accepted :
  exists items d,
    prop (prop (body locationsReply) (js "data")) (js "locations")
    = VArr items
    /\ prop (prop (body locationsReply) (js "data")) (js "default") = d
    /\ prop (body rootReply) (js "validLocations") = VArr items
    /\ prop (body rootReply) (js "defaultLocation") = d
    /\ length items = 22 /\ In d items
    /\ (forall v p,
          In v items ->
          resolveLocation {| query_locationName := v;
                             params_locationName := p |} = v)
    /\ (forall q p,
          ~ In (or_else q p) items ->
          resolveLocation {| query_locationName := q;
                             params_locationName := p |} = d).
Proof.
  exists (map VStr VALID_LOCATIONS), (VStr DEFAULT_LOCATION).
  do 4 (split; [reflexivity|]). split; [reflexivity|].
  split; [|split].
  - apply in_map. unfold VALID_LOCATIONS, DEFAULT_LOCATION. cbn [In]. tauto.
  - intros v p Hin. apply in_map_iff in Hin as (name & <- & Hin).
    unfold resolveLocation, or_else.
    cbn [query_locationName params_locationName].
    rewrite (valid_truthy _ Hin). cbn [negb orb].
    rewrite (valid_truthy _ Hin).
    now rewrite (proj2 (includes_In VALID_LOCATIONS (VStr name)))
      by (exists name; auto).
  - intros q p Hn. unfold resolveLocation.
    cbn [query_locationName params_locationName].
    destruct (includes VALID_LOCATIONS (or_else q p)) eqn:I.
    + apply includes_In in I as (name & E & Hin).
      destruct Hn. rewrite E. now apply in_map.
    + now rewrite orb_true_r.
Qed.

(* ------------------------------------------------------------------ *)
(** ** The head of the result (lines 125-130) *)

(** X7. City, district and update time.  In a produced [weatherData],
    [city] is the location the transformer was given, [district] is the
    [LocationName] of the first sub-location as it is -- [undefined] when
    there is none, and then [res.json] writes the result without it -- and
    [updateTime] is the [DatasetDescription] of the first region, or the
    empty string when that is missing or falsy: never [undefined].
    [updateTime] and [forecasts] are always written. *)
Theorem header_fields (locationName data : value) (w : weatherData) :
  transform locationName data = Ok (Some w) ->
  city w = locationName
  /\ district w = prop (firstSubLocation data) (js "LocationName")
  /\ updateTime w =
     or_else (opt_get (firstRegion data) (js "DatasetDescription")) (VStr [])
  /\ (updateTime w = VStr [] \/ truthy (updateTime w) = true)
  /\ (district w = VUndef ->
      ~ In (js "district") (ownKeys (serialized (weatherData_object w))))
  /\ In (js "updateTime") (ownKeys (serialized (weatherData_object w)))
  /\ In (js "forecasts") (ownKeys (serialized (weatherData_object w))).
Proof.
  intros H.
  destruct (transform_Some _ _ _ H)
    as (elements & table & _ & _ & _ & Hc & Hd & Hu & _).
  assert (U : updateTime w = VStr [] \/ truthy (updateTime w) = true).
  { rewrite Hu. unfold or_else.
    destruct (truthy (opt_get _ _)) eqn:T; auto. }
  do 4 (split; [assumption|]). split; [|split].
  - intros D Hin. apply serialized_key_in in Hin as (x & Hin & Hx).
    cbn [weatherData_object In] in Hin.
    repeat (destruct Hin as [Hin|Hin];
            [first [discriminate Hin | injection Hin; intros; congruence]|]).
    exact Hin.
  - apply serialized_key_in. exists (updateTime w). split.
    + cbn [weatherData_object In]. tauto.
    + destruct U as [E|E]; intros E'; rewrite E' in E; discriminate.
  - apply serialized_key_in. eexists. split.
    + cbn [weatherData_object In]. do 3 right. left. reflexivity.
    + discriminate.
Qed.

Lemma header_fields_witness :
  transform (VStr (js "臺北市")) anonymous =
    Ok (Some (transformed (VStr (js "臺北市")) anonymous))
  /\ district (transformed (VStr (js "臺北市")) anonymous) = VUndef
  /\ updateTime (transformed (VStr (js "臺北市")) anonymous) = VStr []
  /\ ~ In (js "district")
         (ownKeys (serialized (weatherData_object
                                 (transformed (VStr (js "臺北市")) anonymous)))).
Proof.
  assert (H : transform (VStr (js "臺北市")) anonymous =
              Ok (Some (transformed (VStr (js "臺北市")) anonymous)))
    by (vm_compute; reflexivity).
  split; [exact H|].
  destruct (header_fields _ _ _ H) as (_ & Hd & Hu & _ & Hk & _).
  assert (D : district (transformed (VStr (js "臺北市")) anonymous) = VUndef)
    by (rewrite Hd; reflexivity).
  split; [exact D|]. split; [rewrite Hu; reflexivity | exact (Hk D)].
Defined.

(* ------------------------------------------------------------------ *)
(** ** The element table and what the loop reads of it *)

Lemma named_nameOf (name : jstring) (e : value) :
  named name e = true <-> nameOf e = Ok name.
Proof.
  unfold named, nameOf.
  destruct (get e (js "ElementName")) as [n|]; cbn [bind];
    try (split; discriminate).
  destruct (to_string n) as [k|]; try (split; discriminate).
  rewrite jstring_eqb_eq. split; congruence.
Qed.

Lemma readable_collect (elements : list value) :
  forall table,
    forallb readable elements = true ->
    exists table', collect elements table = Ok table'.
Proof.
  induction elements as [|e rest IH]; intros table H; [cbn; eauto|].
  cbn [forallb] in H. apply andb_prop in H as [He Hr].
  unfold readable in He. cbn [collect] in *.
  destruct (get e (js "ElementName")) as [n|]; cbn [bind] in *;
    try discriminate.
  destruct (get e (js "Time")) as [t|]; cbn [bind] in *; try discriminate.
  destruct (to_string n) as [k|]; cbn [bind] in *; try discriminate.
  now apply IH.
Qed.

Lemma collect_readable (elements : list value) :
  forall table table',
    collect elements table = Ok table' -> forallb readable elements = true.
Proof.
  induction elements as [|e rest IH]; intros table table' H; [reflexivity|].
  cbn [forallb]. unfold readable. cbn [collect] in *.
  destruct (get e (js "ElementName")) as [n|]; cbn [bind] in *;
    try discriminate.
  destruct (get e (js "Time")) as [t|]; cbn [bind] in *; try discriminate.
  destruct (to_string n) as [k|]; cbn [bind] in *; try discriminate.
  cbn [andb]. now apply IH in H.
Qed.

Lemma collect_app (front back : list value) :
  forall o,
    collect (front ++ back) o = (o' <- collect front o ;; collect back o').
Proof.
  induction front as [|e front IH]; intros o; cbn [app collect bind];
    [reflexivity|].
  destruct (get e (js "ElementName")) as [n|]; cbn [bind]; [|reflexivity].
  destruct (get e (js "Time")) as [t|]; cbn [bind]; [|reflexivity].
  destruct (to_string n) as [k|]; cbn [bind]; [|reflexivity].
  apply IH.
Qed.

Lemma lastNamed_Some (name : jstring) (elements : list value) (e : value) :
  lastNamed name elements = Some e -> In e elements /\ named name e = true.
Proof.
  induction elements as [|x rest IH]; cbn [lastNamed]; [discriminate|].
  destruct (lastNamed name rest) as [e'|].
  - intros H. injection H as ->. destruct (IH eq_refl). split; [now right|].
    assumption.
  - destruct (named name x) eqn:N; [|discriminate].
    intros H. injection H as <-. split; [now left | assumption].
Qed.

Lemma lastNamed_None (name : jstring) (elements : list value) :
  lastNamed name elements = None ->
  forall e, In e elements -> named name e = false.
Proof.
  induction elements as [|x rest IH]; cbn [lastNamed]; [intros _ e []|].
  destruct (lastNamed name rest) as [e'|]; [discriminate|].
  destruct (named name x) eqn:N; [discriminate|].
  intros _ e [<-|Hin]; [assumption | now apply IH].
Qed.

Lemma lastNamed_app (name : jstring) (front back : list value) :
  lastNamed name (front ++ back) =
  match lastNamed name back with
  | Some e => Some e
  | None => lastNamed name front
  end.
Proof.
  induction front as [|x front IH]; cbn [app lastNamed].
  - now destruct (lastNamed name back).
  - rewrite IH. now destruct (lastNamed name back).
Qed.

(** The prototype of the table and whether the table has a [__proto__] of
    its own decide what an assignment to [__proto__] does; an assignment to
    another name changes neither. *)
Lemma assign_chain (o o' : jsobject) (key : jstring) (v : value) :
  proto o = proto o' ->
  has_key (js "__proto__") (own o) = has_key (js "__proto__") (own o') ->
  proto (assign o key v) = proto (assign o' key v)
  /\ has_key (js "__proto__") (own (assign o key v))
     = has_key (js "__proto__") (own (assign o' key v)).
Proof.
  intros P K. unfold assign.
  destruct (jstring_eqb key (js "__proto__")) eqn:E; cbn [andb].
  - apply jstring_eqb_eq in E. subst key. rewrite <- P, <- K.
    destruct (negb _ && _).
    + destruct v; cbn [setPrototype own proto]; auto.
    + cbn [own proto]. split; [auto|]. unfold has_key. cbn [lookup].
      now rewrite jstring_eqb_refl.
  - cbn [own proto]. split; [assumption|]. unfold has_key in *.
    cbn [lookup]. rewrite (jstring_eqb_sym _ key), E. exact K.
Qed.

Lemma assign_other (o : jsobject) (key : jstring) (v : value) :
  key <> js "__proto__" ->
  proto (assign o key v) = proto o
  /\ has_key (js "__proto__") (own (assign o key v))
     = has_key (js "__proto__") (own o).
Proof.
  intros H. unfold assign. apply jstring_eqb_neq in H. rewrite H.
  cbn [andb own proto]. split; [reflexivity|]. unfold has_key.
  cbn [lookup]. now rewrite (jstring_eqb_sym _ key), H.
Qed.

Lemma collect_chain (elements : list value) :
  forall o o' t t',
    proto o = proto o' ->
    has_key (js "__proto__") (own o) = has_key (js "__proto__") (own o') ->
    collect elements o = Ok t -> collect elements o' = Ok t' ->
    proto t = proto t'.
Proof.
  induction elements as [|e rest IH]; intros o o' t t' P K H H'.
  - injection H as <-. now injection H' as <-.
  - cbn [collect] in H, H'. bind_inv H. bind_inv H. bind_inv H.
    rewrite E, E0 in H'. cbn [bind] in H'. rewrite E1 in H'. cbn [bind] in H'.
    destruct (assign_chain o o' x1 x0 P K) as [P' K'].
    exact (IH _ _ _ _ P' K' H H').
Qed.

(** When no two elements carry the same name, the prototype the table ends
    with is the one the element named [__proto__] gives it, if there is
    one. *)
Lemma collect_proto_unique (elements : list value) :
  NoDup (map nameOf elements) ->
  forall o o',
    collect elements o = Ok o' ->
    reachesSetter (proto o) = true ->
    has_key (js "__proto__") (own o) = false ->
    proto o' =
    match lastNamed (js "__proto__") elements with
    | Some e => proto (setPrototype o (prop e (js "Time")))
    | None => proto o
    end.
Proof.
  induction elements as [|e rest IH]; intros D o o' H R K.
  - now injection H as <-.
  - cbn [collect] in H. bind_inv H. bind_inv H. bind_inv H.
    cbn [map] in D. apply NoDup_cons_iff in D as [Da Dl].
    assert (Ne : nameOf e = Ok x1) by (unfold nameOf; now rewrite E).
    apply get_Ok in E0 as [_ ->].
    cbn [lastNamed]. rewrite (named_key (js "__proto__") _ _ _ E E1).
    destruct (jstring_eqb (js "__proto__") x1) eqn:Ex.
    + apply jstring_eqb_eq in Ex. subst x1.
      assert (Nr : noneNamed (js "__proto__") rest = true).
      { apply forallb_forall. intros e' Hin.
        destruct (named (js "__proto__") e') eqn:N'; [|reflexivity].
        apply named_nameOf in N'. destruct Da. rewrite Ne, <- N'.
        now apply in_map. }
      rewrite (lastNamed_none _ _ Nr), (collect_proto _ Nr _ _ H).
      unfold assign. now rewrite jstring_eqb_refl, K, R.
    + assert (Nx : x1 <> js "__proto__").
      { intros ->. now rewrite jstring_eqb_refl in Ex. }
      destruct (assign_other o x1 (prop e (js "Time")) Nx) as [P' K'].
      rewrite (IH Dl _ _ H); [|now rewrite P' | now rewrite K'].
      rewrite P'.
      destruct (lastNamed (js "__proto__") rest) as [e'|]; [|reflexivity].
      unfold setPrototype.
      now destruct (prop e' (js "Time")); cbn [proto]; rewrite ?P'.
Qed.

Lemma attribute_ext (t1 t2 : jsobject) (name : jstring)
    (i : nat) (field : jstring) (format : value -> result value) :
  element t1 name = element t2 name ->
  attribute t1 name i field format = attribute t2 name i field format.
Proof. unfold attribute. now intros ->. Qed.

Lemma period_ext (t1 t2 : jsobject) (wxTimes : value) (i : nat) :
  (forall name, name <> js "__proto__" ->
     element t1 name = element t2 name) ->
  period t1 wxTimes i = period t2 wxTimes i.
Proof.
  intros H. unfold period.
  repeat
    match goal with
    | |- context [attribute t1 ?name ?j ?field ?format] =>
        rewrite (attribute_ext t1 t2 name j field format)
          by (apply H; discriminate)
    end.
  reflexivity.
Qed.

Lemma forLoop_ext (t1 t2 : jsobject) (wxTimes : value) :
  (forall name, name <> js "__proto__" ->
     element t1 name = element t2 name) ->
  forall remaining i acc,
    forLoop t1 wxTimes remaining i acc = forLoop t2 wxTimes remaining i acc.
Proof.
  intros H. induction remaining as [|n IH]; intros i acc; cbn [forLoop];
    [reflexivity|].
  rewrite (period_ext t1 t2 _ _ H).
  destruct (period t2 wxTimes i); cbn [bind]; auto.
Qed.

(** [transform] once the sub-location and its table are there. *)
Lemma transform_run (locationName data : value) (elements : list value)
    (table : jsobject) :
  truthy (firstSubLocation data) = true ->
  prop (firstSubLocation data) (js "WeatherElement") = VArr elements ->
  collect elements emptyObject = Ok table ->
  transform locationName data =
  (let wxTimes := or_else (element table masterName) (VArr []) in
   bound <- loopBound wxTimes ;;
   forecasts <- forLoop table wxTimes bound 0 [] ;;
   Ok (Some {| city := locationName;
               district := prop (firstSubLocation data) (js "LocationName");
               updateTime :=
                 or_else (opt_get (firstRegion data)
                            (js "DatasetDescription")) (VStr []);
               forecasts := forecasts |})).
Proof.
  intros F He Hc. unfold transform.
  rewrite (locate_found _ F). cbn [bind]. rewrite F. cbn [negb].
  unfold weatherElementsOf.
  rewrite (get_present _ _ (truthy_present _ F)). cbn [bind].
  rewrite He, Hc. reflexivity.
Qed.

(** The periods depend on the elements only through what the table returns
    for the names the loop asks for. *)
Lemma forecasts_by_tables (locationName data data' : value)
    (elements elements' : list value) (table table' : jsobject)
    (w : weatherData) :
  transform locationName data = Ok (Some w) ->
  prop (firstSubLocation data) (js "WeatherElement") = VArr elements ->
  collect elements emptyObject = Ok table ->
  truthy (firstSubLocation data') = true ->
  prop (firstSubLocation data') (js "WeatherElement") = VArr elements' ->
  collect elements' emptyObject = Ok table' ->
  (forall name, name <> js "__proto__" ->
     element table' name = element table name) ->
  exists w',
    transform locationName data' = Ok (Some w')
    /\ forecasts w' = forecasts w.
Proof.
  intros H He Hc F' He' Hc' T.
  destruct (transform_Some _ _ _ H) as (elements0 & table0 & F & _).
  rewrite (transform_run _ _ _ _ F He Hc) in H. cbv zeta in H.
  bind_inv H. bind_inv H. injection H as <-.
  rewrite (transform_run _ _ _ _ F' He' Hc'). cbv zeta.
  rewrite (T masterName master_name), E. cbn [bind].
  rewrite (forLoop_ext _ _ _ T), E0. cbn [bind].
  eexists. split; reflexivity.
Qed.

Lemma transform_table (locationName data : value) (elements : list value)
    (w : weatherData) :
  transform locationName data = Ok (Some w) ->
  prop (firstSubLocation data) (js "WeatherElement") = VArr elements ->
  exists table, collect elements emptyObject = Ok table.
Proof.
  intros H He.
  destruct (transform_Some _ _ _ H) as (elements0 & table & _ & He0 & Hc & _).
  rewrite He in He0. injection He0 as <-. eauto.
Qed.

(** X8. The order of the elements.  The periods do not depend on the order
    in which the sub-location lists its weather elements, provided no two
    of them carry the same name: a document whose element list is a
    permutation of another's gives the same periods. *)
Theorem element_order_irrelevant (locationName data data' : value)
    (elements elements' : list value) (w : weatherData) :
  transform locationName data = Ok (Some w) ->
  prop (firstSubLocation data) (js "WeatherElement") = VArr elements ->
  truthy (firstSubLocation data') = true ->
  prop (firstSubLocation data') (js "WeatherElement") = VArr elements' ->
  Permutation elements elements' ->
  NoDup (map nameOf elements) ->
  exists w',
    transform locationName data' = Ok (Some w')
    /\ forecasts w' = forecasts w.
Proof.
  intros H He F' He' P D.
  destruct (transform_table _ _ _ _ H He) as [table Hc].
  pose proof (collect_readable _ _ _ Hc) as R.
  assert (R' : forallb readable elements' = true).
  { rewrite forallb_forall in *. intros e Hin. apply R.
    now apply Permutation_in with elements'; [apply Permutation_sym|]. }
  destruct (readable_collect _ emptyObject R') as [table' Hc'].
  assert (D' : NoDup (map nameOf elements')).
  { apply Permutation_NoDup with (map nameOf elements); [|assumption].
    now apply Permutation_map. }
  assert (L : forall name, lastNamed name elements' = lastNamed name elements).
  { assert (U : forall name e e',
               In e elements -> In e' elements ->
               named name e = true -> named name e' = true -> e = e').
    { intros name e e' Hin Hin' N N'.
      apply named_nameOf in N, N'.
      assert (I : forall (l : list value) x y,
                 NoDup (map nameOf l) -> In x l -> In y l ->
                 nameOf x = nameOf y -> x = y).
      { clear. induction l as [|a l IH]; intros x y D Hx Hy E; [destruct Hx|].
        cbn [map] in D. apply NoDup_cons_iff in D as [Da Dl].
        destruct Hx as [<-|Hx], Hy as [<-|Hy]; try reflexivity.
        - destruct Da. rewrite E. now apply in_map.
        - destruct Da. rewrite <- E. now apply in_map.
        - now apply IH. }
      apply (I elements); try assumption. congruence. }
    intros name.
    destruct (lastNamed name elements') as [e'|] eqn:L'.
    + apply lastNamed_Some in L' as [Hin' N'].
      apply (Permutation_in _ (Permutation_sym P)) in Hin'.
      destruct (lastNamed name elements) as [e|] eqn:L.
      * apply lastNamed_Some in L as [Hin N].
        f_equal. now apply (U name).
      * rewrite (lastNamed_None _ _ L _ Hin') in N'. discriminate.
    + destruct (lastNamed name elements) as [e|] eqn:L; [|reflexivity].
      apply lastNamed_Some in L as [Hin N].
      apply (Permutation_in _ P) in Hin.
      rewrite (lastNamed_None _ _ L' _ Hin) in N. discriminate. }
  apply (forecasts_by_tables locationName data data' elements elements'
           table table' w); try assumption.
  intros name Hn. unfold element.
  rewrite (collect_own name _ (or_introl Hn) _ _ Hc').
  rewrite (collect_own name _ (or_introl Hn) _ _ Hc).
  rewrite (collect_proto_unique _ D' _ _ Hc' eq_refl eq_refl).
  rewrite (collect_proto_unique _ D _ _ Hc eq_refl eq_refl).
  now rewrite !L.
Qed.

Lemma element_order_irrelevant_witness :
  transform (VStr (js "臺北市")) eightAndFive =
    Ok (Some (transformed (VStr (js "臺北市")) eightAndFive))
  /\ exists w',
       transform (VStr (js "臺北市")) fiveAndEight = Ok (Some w')
       /\ forecasts w' = forecasts (transformed (VStr (js "臺北市")) eightAndFive).
Proof.
  assert (H : transform (VStr (js "臺北市")) eightAndFive =
              Ok (Some (transformed (VStr (js "臺北市")) eightAndFive)))
    by (vm_compute; reflexivity).
  split; [exact H|].
  apply (element_order_irrelevant (VStr (js "臺北市")) eightAndFive
           fiveAndEight
           [ weatherElement (js "溫度") (map tempEntry (seq 0 5));
             weatherElement masterName (map wxEntry (seq 0 8)) ]
           [ weatherElement masterName (map wxEntry (seq 0 8));
             weatherElement (js "溫度") (map tempEntry (seq 0 5)) ]
           _ H eq_refl eq_refl eq_refl (perm_swap _ _ [])).
  vm_compute.
  apply NoDup_cons; [intros [E|[]]; discriminate|].
  apply NoDup_cons; [intros [] | apply NoDup_nil].
Defined.

(** X9. A later element of the same name wins.  An element with a name
    other than [__proto__] that is followed, later in the list, by an
    element of the same name is ignored altogether: the document without it
    gives the same periods. *)
Theorem later_element_wins (locationName data data' : value)
    (before rest : list value) (e0 : value) (w : weatherData) :
  transform locationName data = Ok (Some w) ->
  prop (firstSubLocation data) (js "WeatherElement")
  = VArr (before ++ e0 :: rest) ->
  truthy (firstSubLocation data') = true ->
  prop (firstSubLocation data') (js "WeatherElement")
  = VArr (before ++ rest) ->
  named (js "__proto__") e0 = false ->
  (exists e1, In e1 rest /\ nameOf e1 = nameOf e0) ->
  exists w',
    transform locationName data' = Ok (Some w')
    /\ forecasts w' = forecasts w.
Proof.
  intros H He F' He' N0 (e1 & Hin1 & E1).
  destruct (transform_table _ _ _ _ H He) as [table Hc].
  pose proof (collect_readable _ _ _ Hc) as R.
  assert (R' : forallb readable (before ++ rest) = true).
  { rewrite forallb_app in *. cbn [forallb] in R.
    apply andb_prop in R as [Rb R]. apply andb_prop in R as [_ Rr].
    now rewrite Rb, Rr. }
  destruct (readable_collect _ emptyObject R') as [table' Hc'].
  apply (forecasts_by_tables locationName data data'
           (before ++ e0 :: rest) (before ++ rest) table table' w);
    try assumption.
  intros name Hn. unfold element.
  rewrite (collect_own name _ (or_introl Hn) _ _ Hc').
  rewrite (collect_own name _ (or_introl Hn) _ _ Hc).
  assert (L : lastNamed name (before ++ rest)
              = lastNamed name (before ++ e0 :: rest)).
  { rewrite !lastNamed_app. cbn [lastNamed].
    destruct (lastNamed name rest) as [e|] eqn:L; [reflexivity|].
    destruct (named name e0) eqn:N; [|reflexivity].
    apply named_nameOf in N. rewrite <- E1 in N. apply named_nameOf in N.
    rewrite (lastNamed_None _ _ L _ Hin1) in N. discriminate. }
  rewrite L.
  assert (P : proto table' = proto table).
  { rewrite collect_app in Hc, Hc'.
    apply bind_Ok in Hc as (t1 & Hb & Hc).
    rewrite Hb in Hc'. cbn [bind] in Hc'.
    cbn [collect] in Hc. bind_inv Hc. bind_inv Hc. bind_inv Hc.
    assert (K0 : x1 <> js "__proto__").
    { intros ->. unfold named in N0. rewrite E, E2 in N0.
      now rewrite jstring_eqb_refl in N0. }
    destruct (assign_other t1 x1 x0 K0) as [P0 K1].
    symmetry. exact (collect_chain rest _ _ _ _ P0 K1 Hc Hc'). }
  now rewrite P.
Qed.

Lemma later_element_wins_witness :
  transform (VStr (js "臺北市")) shadowed =
    Ok (Some (transformed (VStr (js "臺北市")) shadowed))
  /\ exists w',
       transform (VStr (js "臺北市")) eightAndFive = Ok (Some w')
       /\ forecasts w' = forecasts (transformed (VStr (js "臺北市")) shadowed).
Proof.
  assert (H : transform (VStr (js "臺北市")) shadowed =
              Ok (Some (transformed (VStr (js "臺北市")) shadowed)))
    by (vm_compute; reflexivity).
  split; [exact H|].
  apply (later_element_wins (VStr (js "臺北市")) shadowed eightAndFive
           []
           [ weatherElement (js "溫度") (map tempEntry (seq 0 5));
             weatherElement masterName (map wxEntry (seq 0 8)) ]
           (weatherElement (js "溫度") (map tempEntry (seq 3 2)))
           _ H eq_refl eq_refl eq_refl eq_refl).
  exists (weatherElement (js "溫度") (map tempEntry (seq 0 5))).
  split; [now left | reflexivity].
Defined.

(* ------------------------------------------------------------------ *)
(** ** Documents of the documented shape *)



Lemma lookup_In (k : jstring) (props : list (jstring * value)) (x : value) :
  lookup k props = Some x -> In (k, x) props.
Proof.
  induction props as [|[k' v] rest IH]; cbn [lookup]; [discriminate|].
  destruct (jstring_eqb k k') eqn:E.
  - apply jstring_eqb_eq in E. subst k'. intros H. injection H as ->.
    now left.
  - intros H. right. now apply IH.
Qed.






(* ------------------------------------------------------------------ *)
(** ** A master series that is an object *)

Lemma has_key_In (k : jstring) (props : list (jstring * value)) :
  has_key k props = true -> In k (map fst props).
Proof.
  unfold has_key. destruct (lookup k props) as [x|] eqn:L; [|discriminate].
  intros _. apply lookup_In in L. now apply (in_map fst) in L.
Qed.

Lemma show_nat_NoDup (l : list nat) : NoDup l -> NoDup (map show_nat l).
Proof.
  induction 1 as [|x l Hx _ IH]; cbn [map]; constructor; [|assumption].
  intros Hin. apply in_map_iff in Hin as (y & E & Hy).
  apply show_nat_inj in E. now subst y.
Qed.

(** An object that has a [length] has fewer entries than members: there is
    an index below the number of its members at which it has none. *)
Lemma series_has_gap (props : list (jstring * value)) :
  has_key (js "length") props = true ->
  exists j, j < length props /\ lookup (show_nat j) props = None.
Proof.
  intros K.
  destruct (existsb (fun j => negb (has_key (show_nat j) props))
                    (seq 0 (length props))) eqn:X.
  - apply existsb_exists in X as (j & Hin & Hj). apply in_seq in Hin.
    exists j. split; [lia|]. unfold has_key in Hj.
    now destruct (lookup (show_nat j) props).
  - exfalso.
    assert (I : incl (js "length" :: map show_nat (seq 0 (length props)))
                     (map fst props)).
    { intros k [<-|Hin]; [now apply has_key_In|].
      apply in_map_iff in Hin as (j & <- & Hin). apply has_key_In.
      destruct (has_key (show_nat j) props) eqn:Kj; [reflexivity|].
      assert (existsb (fun j => negb (has_key (show_nat j) props))
                      (seq 0 (length props)) = true); [|congruence].
      apply existsb_exists. exists j. now rewrite Kj. }
    assert (D : NoDup (js "length" :: map show_nat (seq 0 (length props)))).
    { constructor.
      - intros Hin. apply in_map_iff in Hin as (j & E & _).
        pose proof (show_nat_not_length j) as Nl.
        apply jstring_eqb_neq in Nl. contradiction.
      - apply show_nat_NoDup, seq_NoDup. }
    pose proof (NoDup_incl_length D I) as Hle.
    cbn [length] in Hle. rewrite !length_map, length_seq in Hle. lia.
Qed.

Example object_series_one :
  transform (VStr (js "臺北市")) (objectSeries (VNum (js "1")))
  = Ok (Some (transformed (VStr (js "臺北市")) (objectSeries (VNum (js "1")))))
  /\ length (forecasts (transformed (VStr (js "臺北市"))
                          (objectSeries (VStr (js " 0x1 "))))) = 1
  /\ length (forecasts (transformed (VStr (js "臺北市"))
                          (objectSeries (VNum (js "0.5"))))) = 1
  /\ length (forecasts (transformed (VStr (js "臺北市"))
                          (objectSeries (VBool true)))) = 1
  /\ forecasts (transformed (VStr (js "臺北市")) (objectSeries (VStr (js "one"))))
     = [].
Proof. repeat split; vm_compute; reflexivity. Qed.

Example object_series_two :
  transform (VStr (js "臺北市")) (objectSeries (VNum (js "2")))
  = Throw (TypeError (CannotRead VUndef (js "StartTime")))
  /\ transform (VStr (js "臺北市"))
       (objectSeries (VObj [ (js "toString", VNull) ]))
     = Throw (TypeError CannotConvert).
Proof. split; vm_compute; reflexivity. Qed.

(** The body of the loop throws at such an index (line 144). *)
Lemma period_gap (table : jsobject) (props : list (jstring * value))
    (j : nat) :
  lookup (show_nat j) props = None ->
  period table (VObj props) j
  = Throw (TypeError (CannotRead VUndef (js "StartTime"))).
Proof.
  intros L. unfold period, idx, get. cbn [nullish prop]. now rewrite L.
Qed.

Lemma forLoop_gap (table : jsobject) (wxTimes : value) (j : nat)
    (e : js_error) :
  period table wxTimes j = Throw e ->
  forall remaining i acc,
    i <= j < i + remaining ->
    exists e', forLoop table wxTimes remaining i acc = Throw e'.
Proof.
  intros Hj. induction remaining as [|n IH]; intros i acc Hi; [lia|].
  cbn [forLoop].
  destruct (period table wxTimes i) as [f|e'] eqn:P; cbn [bind]; [|eauto].
  apply IH. assert (i <> j) by congruence. lia.
Qed.

Lemma forLoop_longer (table : jsobject) (wxTimes : value) (e : js_error) :
  forall remaining i acc extra,
    forLoop table wxTimes remaining i acc = Throw e ->
    forLoop table wxTimes (remaining + extra) i acc = Throw e.
Proof.
  induction remaining as [|n IH]; intros i acc extra; [discriminate|].
  cbn [forLoop Nat.add].
  destruct (period table wxTimes i) as [f|e']; cbn [bind]; [apply IH | auto].
Qed.

(** So the loop ends the same way whatever number of indexes, from the
    first missing entry on, the test would let through. *)
Lemma forLoop_beyond_gap (table : jsobject) (props : list (jstring * value))
    (j n m : nat) (acc : list forecast) :
  lookup (show_nat j) props = None -> j < n -> j < m ->
  forLoop table (VObj props) n 0 acc = forLoop table (VObj props) m 0 acc.
Proof.
  intros L Hn Hm.
  destruct (forLoop_gap table (VObj props) j _ (period_gap table props j L)
              (S j) 0 acc) as [e He]; [lia|].
  replace n with (S j + (n - S j)) by lia.
  replace m with (S j + (m - S j)) by lia.
  now rewrite !(forLoop_longer _ _ _ _ _ _ _ He).
Qed.

Lemma indexesBelow_most (len : value) :
  forall most i n, indexesBelow len i most = Ok n -> n <= most.
Proof.
  induction most as [|c IH]; intros i n; cbn [indexesBelow].
  - intros H. injection H as <-. lia.
  - destruct (lessThan i len) as [[|]|]; cbn [bind]; try discriminate.
    + destruct (indexesBelow len (S i) c) as [k|] eqn:E; cbn [bind];
        [|discriminate].
      intros H. injection H as <-. apply IH in E. lia.
    + intros H. injection H as <-. lia.
Qed.

Lemma lessThan_defined (len : value) (i : nat) (b : bool) :
  lessThan i len = Ok b -> forall j, exists b', lessThan j len = Ok b'.
Proof.
  destruct len; cbn [lessThan]; intros H j; eauto;
    destruct (to_string _); cbn [bind] in *; eauto; discriminate.
Qed.

Lemma indexesBelow_total (len : value) :
  (forall j, exists b, lessThan j len = Ok b) ->
  forall most i, exists n, indexesBelow len i most = Ok n.
Proof.
  intros T. induction most as [|c IH]; intros i; cbn [indexesBelow];
    [eauto|].
  destruct (T i) as [[|] ->]; cbn [bind]; [|eauto].
  destruct (IH (S i)) as [k ->]. cbn [bind]. eauto.
Qed.

Lemma indexesBelow_more (len : value) :
  (forall j, exists b, lessThan j len = Ok b) ->
  forall most i n extra,
    indexesBelow len i most = Ok n ->
    exists n',
      indexesBelow len i (most + extra) = Ok n'
      /\ (n < most -> n' = n) /\ n <= n'.
Proof.
  intros T. induction most as [|c IH]; intros i n extra;
    cbn [indexesBelow Nat.add].
  - intros H. injection H as <-.
    destruct (indexesBelow_total len T extra i) as [n' ->].
    exists n'. repeat split; lia.
  - destruct (lessThan i len) as [[|]|]; cbn [bind]; try discriminate.
    + destruct (indexesBelow len (S i) c) as [k|] eqn:E; cbn [bind];
        [|discriminate].
      intros H. injection H as <-.
      destruct (IH (S i) k extra E) as (k' & -> & Hk & Hle). cbn [bind].
      exists (S k'). repeat split; [|lia].
      intros Hlt. f_equal. apply Hk. lia.
    + intros H. injection H as <-. exists 0. repeat split; lia.
Qed.

(** Counting further than the number of members changes nothing: the loop
    over an object ends the same way. *)
Lemma loopBound_exact (table : jsobject) (props : list (jstring * value))
    (n extra : nat) :
  loopBound (VObj props) = Ok n ->
  exists n',
    indexesBelow (prop (VObj props) (js "length")) 0 (length props + extra)
    = Ok n'
    /\ forLoop table (VObj props) n' 0 [] = forLoop table (VObj props) n 0 [].
Proof.
  cbn [loopBound]. intros H.
  destruct (has_key (js "length") props) eqn:K.
  - pose proof (indexesBelow_most _ _ _ _ H) as Hle.
    destruct (series_has_gap _ K) as (j & Hj & Lj).
    assert (T : forall i, exists b,
                 lessThan i (prop (VObj props) (js "length")) = Ok b).
    { destruct props as [|p rest]; [discriminate|].
      cbn [length indexesBelow] in H.
      destruct (lessThan 0 _) as [b|] eqn:T0; [|discriminate].
      exact (lessThan_defined _ _ _ T0). }
    destruct (indexesBelow_more _ T _ _ _ extra H) as (n' & -> & Hn & Hle').
    exists n'. split; [reflexivity|].
    destruct (Nat.lt_ge_cases n (length props)) as [Hlt|Hge].
    + now rewrite (Hn Hlt).
    + apply (forLoop_beyond_gap table props j); [assumption | lia | lia].
  - assert (U : prop (VObj props) (js "length") = VUndef).
    { unfold has_key in K. cbn [prop].
      now destruct (lookup (js "length") props). }
    rewrite U in *.
    assert (Z : forall most, indexesBelow VUndef 0 most = Ok 0)
      by (intros [|most]; reflexivity).
    rewrite Z in *. injection H as <-. now exists 0.
Qed.

(* ------------------------------------------------------------------ *)
(** ** What the loop never reads *)

Lemma period_by_entries (t1 t2 : jsobject) (wxTimes : value)
    (i : nat) :
  (forall name, entryAt (element t1 name) i = entryAt (element t2 name) i) ->
  period t1 wxTimes i = period t2 wxTimes i.
Proof.
  intros H. unfold period. rewrite !attribute_eq.
  repeat rewrite (H _). reflexivity.
Qed.

Lemma forLoop_by_entries (t1 t2 : jsobject) (wxTimes : value) :
  forall remaining i acc,
    (forall name j, i <= j < i + remaining ->
       entryAt (element t1 name) j = entryAt (element t2 name) j) ->
    forLoop t1 wxTimes remaining i acc = forLoop t2 wxTimes remaining i acc.
Proof.
  induction remaining as [|n IH]; intros i acc H; cbn [forLoop];
    [reflexivity|].
  rewrite (period_by_entries t1 t2 wxTimes i)
    by (intros name; apply H; lia).
  destruct (period t2 wxTimes i); cbn [bind]; try reflexivity.
  apply IH. intros name j Hj. apply H. lia.
Qed.

(** X11. Entries beyond the master series.  Among documents without an
    element named [__proto__], the periods depend on the elements only
    through the master series and, for every other name, through the
    entries of its series at the indexes of the periods: two documents that
    agree on those give the same periods, so that entries at or beyond the
    length of the master series are never used. *)
Theorem entries_beyond_master_unread (locationName data data' : value)
    (elements elements' : list value) (w : weatherData) :
  transform locationName data = Ok (Some w) ->
  prop (firstSubLocation data) (js "WeatherElement") = VArr elements ->
  truthy (firstSubLocation data') = true ->
  prop (firstSubLocation data') (js "WeatherElement") = VArr elements' ->
  forallb readable elements' = true ->
  noneNamed (js "__proto__") elements = true ->
  noneNamed (js "__proto__") elements' = true ->
  seriesOf masterName elements' = seriesOf masterName elements ->
  (forall name i, i < length (forecasts w) ->
     entryAt (seriesOf name elements') i = entryAt (seriesOf name elements) i) ->
  exists w',
    transform locationName data' = Ok (Some w')
    /\ forecasts w' = forecasts w.
Proof.
  intros H He F' He' R Np Np' M A.
  destruct (transform_Some _ _ _ H)
    as (elements0 & table & F & He0 & Hc & _).
  rewrite He in He0. injection He0 as <-.
  rewrite (transform_run _ _ _ _ F He Hc) in H. cbv zeta in H.
  bind_inv H. rename x into bound, E into Eb.
  bind_inv H. rename x into fs, E into El. injection H as <-.
  cbn [forecasts] in A.
  destruct (forLoop_Ok _ _ _ _ _ _ El) as (fresh & -> & Hlen & _).
  cbn [app] in A. rewrite Hlen in A.
  destruct (readable_collect _ emptyObject R) as [table' Hc'].
  rewrite (transform_run _ _ _ _ F' He' Hc'). cbv zeta.
  rewrite (element_seriesOf _ _ _ Np' Hc'), M,
    <- (element_seriesOf _ _ _ Np Hc), Eb.
  cbn [bind].
  rewrite (forLoop_by_entries table' table), El.
  - cbn [bind]. eexists. split; reflexivity.
  - intros name j Hj.
    rewrite (element_seriesOf _ _ _ Np' Hc'), (element_seriesOf _ _ _ Np Hc).
    apply A. lia.
Qed.

Lemma entries_beyond_master_unread_witness :
  transform (VStr (js "臺北市")) threeAndFive =
    Ok (Some (transformed (VStr (js "臺北市")) threeAndFive))
  /\ exists w',
       transform (VStr (js "臺北市")) threeAndThree = Ok (Some w')
       /\ forecasts w' = forecasts (transformed (VStr (js "臺北市")) threeAndFive).
Proof.
  assert (H : transform (VStr (js "臺北市")) threeAndFive =
              Ok (Some (transformed (VStr (js "臺北市")) threeAndFive)))
    by (vm_compute; reflexivity).
  split; [exact H|].
  apply (entries_beyond_master_unread (VStr (js "臺北市")) threeAndFive
           threeAndThree
           [ weatherElement (js "溫度") (map tempEntry (seq 0 5));
             weatherElement masterName (map wxEntry (seq 0 3)) ]
           [ weatherElement (js "溫度") (map tempEntry (seq 0 3));
             weatherElement masterName (map wxEntry (seq 0 3)) ]
           _ H eq_refl eq_refl eq_refl eq_refl eq_refl eq_refl eq_refl).
  intros name i Hi.
  change (length (forecasts (transformed (VStr (js "臺北市")) threeAndFive)))
    with 3 in Hi.
  unfold seriesOf. cbn [lastNamed].
  destruct (named name (weatherElement masterName (map wxEntry (seq 0 3))));
    [reflexivity|].
  destruct (named name (weatherElement (js "溫度") (map tempEntry (seq 0 5))))
    eqn:N5.
  - apply named_nameOf in N5.
    assert (N3 : named name
                   (weatherElement (js "溫度") (map tempEntry (seq 0 3)))
                 = true) by (apply named_nameOf; exact N5).
    rewrite N3.
    destruct i as [|[|[|i]]]; [reflexivity | reflexivity | reflexivity | lia].
  - assert (N3 : named name
                   (weatherElement (js "溫度") (map tempEntry (seq 0 3)))
                 = false).
    { destruct (named name (weatherElement (js "溫度") _)) eqn:N; [|reflexivity].
      apply named_nameOf in N.
      assert (N' : named name
                     (weatherElement (js "溫度") (map tempEntry (seq 0 5)))
                   = true) by (apply named_nameOf; exact N).
      congruence. }
    now rewrite N3.
Defined.
